(** * A verified model of the console contact manager (hw_01/main.py)

    The development embeds the contact data model ([Name], [Phone],
    [Birthday], the contact record and [AddressBook]), the command
    handlers with their [input_error] wrapper and the dispatch loop of
    [main] as Rocq functions, and proves properties of them.

    Conventions of the embedding:
    - a Python [str] is a [string]; characters are the 256 code points of
      Latin-1, which is where the program's parsing decisions are made;
    - a Python [int] is a [Z];
    - a raised exception is the [Err] result (or [Raise] outcome) of a
      computation; the
      exception classes the program can meet are the constructors of [exn];
    - [datetime.date] follows the arithmetic of CPython's reference
      implementation (proleptic Gregorian ordinals, years 1..9999);
    - contact records are mutable objects: they live in a store and the
      address book refers to them by location. *)

From Stdlib Require Import ZArith Lia Bool Ascii String List.
From stdpp Require Import base list.
Import ListNotations.

Local Open Scope string_scope.
Local Open Scope list_scope.
Local Open Scope bool_scope.
Local Open Scope Z_scope.

(** ** Exceptions and results *)

Inductive exn : Type :=
| ValueError
| IndexError
| KeyError
| OverflowError
| EOFError.

(** A computation without side effects either returns or raises. *)
Inductive result (A : Type) : Type :=
| Ok (a : A)
| Err (e : exn).
Arguments Ok {A} a.
Arguments Err {A} e.

Definition rbind {A B} (r : result A) (k : A -> result B) : result B :=
  match r with
  | Ok a => k a
  | Err e => Err e
  end.

(** ** Text *)

Module Text.

Definition code (c : ascii) : Z := Z.of_nat (nat_of_ascii c).

(** [str.isspace] on one character, restricted to Latin-1. *)
Definition isspace (c : ascii) : bool :=
  let n := code c in
  ((9 <=? n) && (n <=? 13)) || ((28 <=? n) && (n <=? 32))
  || (n =? 133) || (n =? 160).

Definition isdigit (c : ascii) : bool :=
  let n := code c in (48 <=? n) && (n <=? 57).

(** [len(s)] *)
Definition len (s : string) : Z := Z.of_nat (String.length s).

(** [s.split()]: maximal runs of non-whitespace characters, in order.
    [cur] is the token being read. *)
Fixpoint split_from (cur : string) (s : string) : list string :=
  match s with
  | EmptyString =>
      match cur with
      | EmptyString => []
      | _ => [cur]
      end
  | String c rest =>
      if isspace c then
        match cur with
        | EmptyString => split_from EmptyString rest
        | _ => cur :: split_from EmptyString rest
        end
      else split_from (cur ++ String c EmptyString)%string rest
  end.

Definition split (s : string) : list string := split_from EmptyString s.

Fixpoint lstrip (s : string) : string :=
  match s with
  | String c rest => if isspace c then lstrip rest else s
  | EmptyString => EmptyString
  end.

(** Characters of [s] with the trailing whitespace removed. *)
Fixpoint rstrip (s : string) : string :=
  match s with
  | EmptyString => EmptyString
  | String c rest =>
      match rstrip rest with
      | EmptyString => if isspace c then EmptyString else String c EmptyString
      | r => String c r
      end
  end.

Definition strip (s : string) : string := rstrip (lstrip s).

Definition lower_char (c : ascii) : ascii :=
  let n := code c in
  if ((65 <=? n) && (n <=? 90))
     || ((192 <=? n) && (n <=? 222) && negb (n =? 215))
  then ascii_of_nat (Z.to_nat (n + 32))
  else c.

Fixpoint lower (s : string) : string :=
  match s with
  | EmptyString => EmptyString
  | String c rest => String (lower_char c) (lower rest)
  end.

(** [sep.join(items)] *)
Fixpoint join (sep : string) (items : list string) : string :=
  match items with
  | [] => EmptyString
  | [x] => x
  | x :: rest => (x ++ sep ++ join sep rest)%string
  end.

(** The character of a decimal digit [0..9]. *)
Definition digit_char (n : Z) : ascii := ascii_of_nat (Z.to_nat (48 + n)).

(** [%02d] and [%04d] *)
Definition pad2 (n : Z) : string :=
  String (digit_char (n / 10)) (String (digit_char (n mod 10)) EmptyString).

Definition pad4 (n : Z) : string :=
  String (digit_char (n / 1000))
    (String (digit_char (n / 100 mod 10))
       (String (digit_char (n / 10 mod 10))
          (String (digit_char (n mod 10)) EmptyString))).

(** [%d] of a number in [0..9999]: its decimal digits, with no padding. *)
Definition decimal (n : Z) : string :=
  if n <? 10 then String (digit_char n) EmptyString
  else if n <? 100 then pad2 n
  else if n <? 1000 then String (digit_char (n / 100)) (pad2 (n mod 100))
  else pad4 n.

End Text.

(** ** Calendar dates: [datetime.date] *)

Module PyDate.

Record date : Type := mkdate { year : Z; month : Z; day : Z }.

Definition MINYEAR : Z := 1.
Definition MAXYEAR : Z := 9999.
Definition MAXORDINAL : Z := 3652059.

Definition is_leap (y : Z) : bool :=
  (y mod 4 =? 0) && (negb (y mod 100 =? 0) || (y mod 400 =? 0)).

Definition DAYS_IN_MONTH (m : Z) : Z :=
  match m with
  | 1 => 31 | 2 => 28 | 3 => 31 | 4 => 30 | 5 => 31 | 6 => 30
  | 7 => 31 | 8 => 31 | 9 => 30 | 10 => 31 | 11 => 30 | 12 => 31
  | _ => -1
  end.

Definition DAYS_BEFORE_MONTH (m : Z) : Z :=
  match m with
  | 1 => 0 | 2 => 31 | 3 => 59 | 4 => 90 | 5 => 120 | 6 => 151
  | 7 => 181 | 8 => 212 | 9 => 243 | 10 => 273 | 11 => 304 | 12 => 334
  | _ => -1
  end.

Definition days_before_year (y : Z) : Z :=
  let y1 := y - 1 in
  y1 * 365 + y1 / 4 - y1 / 100 + y1 / 400.

Definition days_in_month (y m : Z) : Z :=
  if (m =? 2) && is_leap y then 29 else DAYS_IN_MONTH m.

Definition days_before_month (y m : Z) : Z :=
  DAYS_BEFORE_MONTH m + (if (2 <? m) && is_leap y then 1 else 0).

Definition ymd2ord (y m d : Z) : Z :=
  days_before_year y + days_before_month y m + d.

(** Month and day of the [n]-th day (from 0) of a year. *)
Definition month_day (leapyear : bool) (n : Z) : Z * Z :=
  let month := Z.shiftr (n + 50) 5 in
  let preceding :=
    DAYS_BEFORE_MONTH month + (if (2 <? month) && leapyear then 1 else 0) in
  if n <? preceding then
    let month' := month - 1 in
    let preceding' :=
      preceding
      - (DAYS_IN_MONTH month' + (if (month' =? 2) && leapyear then 1 else 0)) in
    (month', n - preceding' + 1)
  else (month, n - preceding + 1).

Definition ord2ymd (ordinal : Z) : Z * Z * Z :=
  let n := ordinal - 1 in
  let n400 := n / 146097 in
  let n := n mod 146097 in
  let y := n400 * 400 + 1 in
  let n100 := n / 36524 in
  let n := n mod 36524 in
  let n4 := n / 1461 in
  let n := n mod 1461 in
  let n1 := n / 365 in
  let n := n mod 365 in
  let y := y + n100 * 100 + n4 * 4 + n1 in
  if (n1 =? 4) || (n100 =? 4) then (y - 1, 12, 31)
  else
    let leapyear := (n1 =? 3) && (negb (n4 =? 24) || (n100 =? 3)) in
    let '(m, d) := month_day leapyear n in
    (y, m, d).

(** The range check of the constructor. *)
Definition check_date_fields (y m d : Z) : bool :=
  (MINYEAR <=? y) && (y <=? MAXYEAR)
  && (1 <=? m) && (m <=? 12)
  && (1 <=? d) && (d <=? days_in_month y m).

(** [date(y, m, d)] *)
Definition new (y m d : Z) : result date :=
  if check_date_fields y m d then Ok (mkdate y m d) else Err ValueError.

Definition valid (t : date) : Prop :=
  check_date_fields (year t) (month t) (day t) = true.

Definition toordinal (t : date) : Z := ymd2ord (year t) (month t) (day t).

Definition fromordinal (n : Z) : date :=
  let '(y, m, d) := ord2ymd n in mkdate y m d.

(** Monday is 0, Sunday is 6. *)
Definition weekday (t : date) : Z := (toordinal t + 6) mod 7.

(** [t.replace(year=y)] *)
Definition replace_year (t : date) (y : Z) : result date :=
  new y (month t) (day t).

(** [t + timedelta(days=n)] *)
Definition add_days (t : date) (n : Z) : result date :=
  let o := toordinal t + n in
  if (0 <? o) && (o <=? MAXORDINAL) then Ok (fromordinal o)
  else Err OverflowError.

(** [(a - b).days] *)
Definition sub_days (a b : date) : Z := toordinal a - toordinal b.

(** [a < b]: the fields compared as the tuple (year, month, day). *)
Definition lt (a b : date) : bool :=
  (year a <? year b)
  || ((year a =? year b)
      && ((month a <? month b)
          || ((month a =? month b) && (day a <? day b)))).

(** *** Parsing with the format [%d-%m-%Y]

    [strptime] turns the format into a regular expression, matches it at
    the start of the text with backtracking and then requires that the
    match used up the whole text.  Each parser below returns the ways its
    directive can match a prefix, in the order the expression tries them:
    the value read and the text left. *)

Definition parses (A : Type) : Type := list (A * string).

Definition in_range (c : ascii) (lo hi : Z) : bool :=
  (lo <=? Text.code c) && (Text.code c <=? hi).

Definition dval (c : ascii) : Z := Text.code c - 48.

(** [%d]: [3[0-1]|[1-2]\d|0[1-9]|[1-9]| [1-9]] *)
Definition directive_d (s : string) : parses Z :=
  (match s with
   | String a (String b r) =>
       if (Text.code a =? 51) && in_range b 48 49
       then [(10 * dval a + dval b, r)] else []
   | _ => []
   end)
  ++ (match s with
      | String a (String b r) =>
          if in_range a 49 50 && Text.isdigit b
          then [(10 * dval a + dval b, r)] else []
      | _ => []
      end)
  ++ (match s with
      | String a (String b r) =>
          if (Text.code a =? 48) && in_range b 49 57
          then [(10 * dval a + dval b, r)] else []
      | _ => []
      end)
  ++ (match s with
      | String a r => if in_range a 49 57 then [(dval a, r)] else []
      | _ => []
      end)
  ++ (match s with
      | String a (String b r) =>
          if (Text.code a =? 32) && in_range b 49 57
          then [(dval b, r)] else []
      | _ => []
      end).

(** [%m]: [1[0-2]|0[1-9]|[1-9]] *)
Definition directive_m (s : string) : parses Z :=
  (match s with
   | String a (String b r) =>
       if (Text.code a =? 49) && in_range b 48 50
       then [(10 * dval a + dval b, r)] else []
   | _ => []
   end)
  ++ (match s with
      | String a (String b r) =>
          if (Text.code a =? 48) && in_range b 49 57
          then [(10 * dval a + dval b, r)] else []
      | _ => []
      end)
  ++ (match s with
      | String a r => if in_range a 49 57 then [(dval a, r)] else []
      | _ => []
      end).

(** [%Y]: [\d\d\d\d] *)
Definition directive_Y (s : string) : parses Z :=
  match s with
  | String a (String b (String c (String d r))) =>
      if Text.isdigit a && Text.isdigit b && Text.isdigit c && Text.isdigit d
      then [(1000 * dval a + 100 * dval b + 10 * dval c + dval d, r)]
      else []
  | _ => []
  end.

(** A literal character of the format. *)
Definition literal (ch : ascii) (s : string) : parses unit :=
  match s with
  | String a r => if Ascii.eqb a ch then [(tt, r)] else []
  | EmptyString => []
  end.

Definition pbind {A B} (p : parses A) (k : A -> string -> parses B) : parses B :=
  flat_map (fun '(a, r) => k a r) p.

(** All matches of [%d-%m-%Y] at the start of [s], first choice first. *)
Definition match_dmY (s : string) : parses (Z * Z * Z) :=
  pbind (directive_d s) (fun d r1 =>
  pbind (literal "-" r1) (fun _ r2 =>
  pbind (directive_m r2) (fun m r3 =>
  pbind (literal "-" r3) (fun _ r4 =>
  pbind (directive_Y r4) (fun y r5 => [((d, m, y), r5)]))))).

(** [datetime.strptime(s, "%d-%m-%Y").date()] *)
Definition strptime_dmY (s : string) : result date :=
  match match_dmY s with
  | [] => Err ValueError
  | ((d, m, y), rest) :: _ =>
      match rest with
      | EmptyString => new y m d
      | _ => Err ValueError
      end
  end.

(** [t.strftime("%d-%m-%Y")]: [%d] and [%m] are written with two digits,
    zero-padded.  [%Y] is handed to the C library, which writes the year in
    plain decimal with no padding: a year below 1000 comes out with fewer
    than four digits ([date(999, 1, 2)] gives ["02-01-999"]). *)
Definition strftime_dmY (t : date) : string :=
  (Text.pad2 (day t) ++ "-" ++ Text.pad2 (month t) ++ "-" ++ Text.decimal (year t))%string.

(** [t.strftime("%Y.%m.%d")], with the same [%Y] *)
Definition strftime_Ymd (t : date) : string :=
  (Text.decimal (year t) ++ "." ++ Text.pad2 (month t) ++ "." ++ Text.pad2 (day t))%string.

End PyDate.


(** ** Field value types *)

(** [Field] is the abstract base class: a value and a text rendering. *)
Class Field (A V : Type) : Type := {
  value : A -> V;
  to_str : A -> string
}.

Record Name : Type := mkName { name_value : string }.

Record Phone : Type := mkPhone { phone_value : string }.

Record Birthday : Type := mkBirthday { birthday_value : PyDate.date }.

#[export] Instance Name_Field : Field Name string :=
  {| value := name_value; to_str := name_value |}.

#[export] Instance Phone_Field : Field Phone string :=
  {| value := phone_value; to_str := phone_value |}.

#[export] Instance Birthday_Field : Field Birthday PyDate.date :=
  {| value := birthday_value;
     to_str := fun b => PyDate.strftime_dmY (birthday_value b) |}.

(** [Name(value)] *)
Definition new_Name (v : string) : Name := mkName v.

(** [Phone(value)]: the length check of [Phone.__init__]. *)
Definition new_Phone (v : string) : result Phone :=
  if negb (Text.len v =? 10) then Err ValueError else Ok (mkPhone v).

(** [Birthday(value)]: the [ValueError] of [strptime] is raised again as a
    [ValueError]. *)
Definition new_Birthday (v : string) : result Birthday :=
  match PyDate.strptime_dmY v with
  | Ok t => Ok (mkBirthday t)
  | Err ValueError => Err ValueError
  | Err e => Err e
  end.

(** ** Contact records: the class [Record] *)

Record RecordObj : Type := mkRecord {
  name : Name;
  phones : list Phone;
  birthday : option Birthday
}.

Module Rec.

(** [Record(name)] *)
Definition new (nm : string) : RecordObj :=
  mkRecord (new_Name nm) [] None.

Definition set_phones (ps : list Phone) (r : RecordObj) : RecordObj :=
  mkRecord (name r) ps (birthday r).

Definition set_birthday (b : option Birthday) (r : RecordObj) : RecordObj :=
  mkRecord (name r) (phones r) b.

(** Each method maps the state of the object before the call to the
    state after it, or raises and leaves the object as it was. *)

Definition add_phone (phone_number : string) (r : RecordObj) : result RecordObj :=
  rbind (new_Phone phone_number) (fun p => Ok (set_phones (phones r ++ [p]) r)).

Definition add_birthday (text : string) (r : RecordObj) : result RecordObj :=
  rbind (new_Birthday text) (fun b => Ok (set_birthday (Some b) r)).

Fixpoint remove_first (phone_number : string) (ps : list Phone) : list Phone :=
  match ps with
  | [] => []
  | p :: rest =>
      if String.eqb (phone_value p) phone_number then rest
      else p :: remove_first phone_number rest
  end.

Definition remove_phone (phone_number : string) (r : RecordObj) : RecordObj :=
  set_phones (remove_first phone_number (phones r)) r.

(** The loop of [edit_phone]: the first phone whose value is
    [old_phone_number] gets the value [new_phone_number]. *)
Fixpoint edit_first (old_phone_number new_phone_number : string)
    (ps : list Phone) : list Phone :=
  match ps with
  | [] => []
  | p :: rest =>
      if String.eqb (phone_value p) old_phone_number
      then mkPhone new_phone_number :: rest
      else p :: edit_first old_phone_number new_phone_number rest
  end.

Definition edit_phone (old_phone_number new_phone_number : string)
    (r : RecordObj) : RecordObj :=
  set_phones (edit_first old_phone_number new_phone_number (phones r)) r.

Fixpoint find_first (phone_number : string) (ps : list Phone) : option Phone :=
  match ps with
  | [] => None
  | p :: rest =>
      if String.eqb (phone_value p) phone_number then Some p
      else find_first phone_number rest
  end.

Definition find_phone (phone_number : string) (r : RecordObj) : option Phone :=
  find_first phone_number (phones r).

(** [str(record)] *)
Definition str (r : RecordObj) : string :=
  ("Contact name: " ++ name_value (name r) ++ ", phones: "
   ++ Text.join "; " (map phone_value (phones r)))%string.

End Rec.

(** ** The store *)

(** Records are objects: [heap] holds the state of every record created so
    far, and a location is an index into it.  [data] is the dictionary of
    the address book, in insertion order, from a name to the location of
    its record. *)

Abbreviation loc := nat.

Record Store : Type := mkStore {
  heap : list RecordObj;
  data : list (string * loc)
}.

Definition empty_book (h : list RecordObj) : Store := mkStore h [].

(** *** Dictionary operations *)

Module Dict.

Fixpoint get {V} (k : string) (d : list (string * V)) : option V :=
  match d with
  | [] => None
  | (k', v) :: rest => if String.eqb k' k then Some v else get k rest
  end.

(** [d[k] = v]: an existing key keeps its position. *)
Fixpoint set {V} (k : string) (v : V) (d : list (string * V)) : list (string * V) :=
  match d with
  | [] => [(k, v)]
  | (k', v') :: rest =>
      if String.eqb k' k then (k', v) :: rest else (k', v') :: set k v rest
  end.

(** [del d[k]] for a key that may be absent. *)
Fixpoint del {V} (k : string) (d : list (string * V)) : list (string * V) :=
  match d with
  | [] => []
  | (k', v') :: rest =>
      if String.eqb k' k then rest else (k', v') :: del k rest
  end.

Definition mem {V} (k : string) (d : list (string * V)) : bool :=
  match get k d with Some _ => true | None => false end.

Definition values {V} (d : list (string * V)) : list V := map snd d.

End Dict.

(** *** Computations on the store *)

(** A computation returns, raises, or meets a location that holds no
    object ([Fault]), which no well-formed store allows. *)
Inductive outcome (A : Type) : Type :=
| Return (a : A)
| Raise (e : exn)
| Fault.
Arguments Return {A} a.
Arguments Raise {A} e.
Arguments Fault {A}.

Definition M (A : Type) : Type := Store -> outcome A * Store.

Definition ret {A} (a : A) : M A := fun s => (Return a, s).

Definition raise {A} (e : exn) : M A := fun s => (Raise e, s).

Definition bind {A B} (m : M A) (k : A -> M B) : M B :=
  fun s =>
    match m s with
    | (Return a, s') => k a s'
    | (Raise e, s') => (Raise e, s')
    | (Fault, s') => (Fault, s')
    end.

Notation "'do' x <- m ;; k" := (bind m (fun x => k))
  (at level 10, x name, m at level 99, k at level 200, only parsing).
Notation "'exec' m ;; k" := (bind m (fun _ => k))
  (at level 10, m at level 99, k at level 200, only parsing).

Definition lift {A} (r : result A) : M A :=
  match r with
  | Ok a => ret a
  | Err e => raise e
  end.

(** Reading the object at a location. *)
Definition deref (l : loc) : M RecordObj :=
  fun s =>
    match heap s !! l with
    | Some r => (Return r, s)
    | None => (Fault, s)
    end.

(** Creating an object. *)
Definition alloc (r : RecordObj) : M loc :=
  fun s => (Return (length (heap s)), mkStore (heap s ++ [r]) (data s)).

(** Writing the state of the object at a location. *)
Definition store (l : loc) (r : RecordObj) : M unit :=
  fun s => (Return tt, mkStore (<[l := r]> (heap s)) (data s)).

(** Calling a method that may raise on the object at [l]. *)
Definition call (l : loc) (meth : RecordObj -> result RecordObj) : M unit :=
  do r <- deref l ;; do r' <- lift (meth r) ;; store l r'.

Definition get_data : M (list (string * loc)) := fun s => (Return (data s), s).

Definition put_data (d : list (string * loc)) : M unit :=
  fun s => (Return tt, mkStore (heap s) d).

Fixpoint mapM {A B} (f : A -> M B) (l : list A) : M (list B) :=
  match l with
  | [] => ret []
  | a :: rest => do b <- f a ;; do bs <- mapM f rest ;; ret (b :: bs)
  end.

(** ** The address book: the class [AddressBook] *)

(** One entry of the list [get_upcoming_birthdays] returns: the dictionary
    with the keys ["name"] and ["birthday"]. *)
Record Entry : Type := mkEntry {
  entry_name : string;
  entry_birthday : string
}.

Module AddressBook.

(** [self.data[record.name.value] = record] *)
Definition add_record (record : loc) : M unit :=
  do r <- deref record ;;
  do d <- get_data ;;
  put_data (Dict.set (name_value (name r)) record d).

Definition find (nm : string) : M (option loc) :=
  do d <- get_data ;; ret (Dict.get nm d).

Definition delete (nm : string) : M unit :=
  do d <- get_data ;;
  if Dict.mem nm d then put_data (Dict.del nm d) else ret tt.

(** The records of the book, in the order of [self.data.values()]. *)
Definition records : M (list RecordObj) :=
  do d <- get_data ;; mapM deref (Dict.values d).

Definition newline : string := String (ascii_of_nat 10) EmptyString.

(** [str(book)] *)
Definition str : M string :=
  do rs <- records ;; ret (Text.join newline (map Rec.str rs)).

Definition find_next_weekday (start_date : PyDate.date) (wd : Z)
  : result PyDate.date :=
  let days_ahead := wd - PyDate.weekday start_date in
  let days_ahead := if days_ahead <=? 0 then days_ahead + 7 else days_ahead in
  PyDate.add_days start_date days_ahead.

Definition adjust_for_weekend (b : PyDate.date) : result PyDate.date :=
  if 5 <=? PyDate.weekday b then find_next_weekday b 0 else Ok b.

(** The body of the loop of [get_upcoming_birthdays] up to the selection
    test: the birthday in the year of [today], moved to the next year
    when it is before [today]. *)
Definition birthday_this_year (today : PyDate.date) (b : Birthday)
  : result PyDate.date :=
  rbind (PyDate.replace_year (birthday_value b) (PyDate.year today))
    (fun bty =>
       if PyDate.lt bty today
       then PyDate.replace_year bty (PyDate.year today + 1)
       else Ok bty).

(** The selection test. *)
Definition in_window (today : PyDate.date) (days : Z) (bty : PyDate.date) : bool :=
  (0 <=? PyDate.sub_days bty today) && (PyDate.sub_days bty today <=? days).

(** The loop over the records; [upcoming] is the list built so far. *)
Fixpoint upcoming_loop (today : PyDate.date) (days : Z)
    (rs : list RecordObj) (upcoming : list Entry) : result (list Entry) :=
  match rs with
  | [] => Ok upcoming
  | record :: rest =>
      match birthday record with
      | None => upcoming_loop today days rest upcoming
      | Some b =>
          match birthday_this_year today b with
          | Err e => Err e
          | Ok bty =>
              if in_window today days bty then
                match adjust_for_weekend bty with
                | Err e => Err e
                | Ok congratulation_date =>
                    upcoming_loop today days rest
                      (upcoming
                       ++ [mkEntry (name_value (name record))
                             (PyDate.strftime_Ymd congratulation_date)])
                end
              else upcoming_loop today days rest upcoming
          end
      end
  end.

(** [today] is the value of [date.today()] during the call. *)
Definition get_upcoming_birthdays (today : PyDate.date) (days : Z)
  : M (list Entry) :=
  do rs <- records ;; lift (upcoming_loop today days rs []).

End AddressBook.

(** ** Command handlers *)

(** What a handler returns: a text, or the book itself ([show_all]). *)
Inductive reply : Type :=
| VStr (s : string)
| VBook.

Definition input_error (func : M reply) : M reply :=
  fun s =>
    match func s with
    | (Raise ValueError, s') => (Return (VStr "Incorrect value."), s')
    | (Raise IndexError, s') => (Return (VStr "Give me name and phone please."), s')
    | (Raise KeyError, s') => (Return (VStr "Name not found."), s')
    | other => other
    end.

(** Truth value of a [str]. *)
Definition truthy (s : string) : bool :=
  match s with
  | EmptyString => false
  | _ => true
  end.

Definition add_contact (args : list string) : M reply :=
  input_error
    match args with
    | nm :: phone :: _ =>
        do found <- AddressBook.find nm ;;
        do rm <-
          match found with
          | None =>
              do record <- alloc (Rec.new nm) ;;
              exec AddressBook.add_record record ;;
              ret (record, "Contact added.")
          | Some record => ret (record, "Contact updated.")
          end ;;
        exec
          (if truthy phone then call (fst rm) (Rec.add_phone phone) else ret tt) ;;
        ret (VStr (snd rm))
    | _ => raise ValueError
    end.

Definition change_contact (args : list string) : M reply :=
  input_error
    match args with
    | [nm; old_phone; new_phone] =>
        do found <- AddressBook.find nm ;;
        match found with
        | Some record =>
            do r <- deref record ;;
            match Rec.find_phone old_phone r with
            | Some _ =>
                exec call record
                       (fun r => Ok (Rec.edit_phone old_phone new_phone r)) ;;
                ret (VStr "Contact updated.")
            | None => raise KeyError
            end
        | None => raise KeyError
        end
    | _ => raise ValueError
    end.

Definition show_phone (args : list string) : M reply :=
  input_error
    (do found <- AddressBook.find (Text.join "" args) ;;
     match found with
     | Some record =>
         do r <- deref record ;;
         ret (VStr match phones r with
                   | [] => "No phones"
                   | ps => Text.join "; " (map phone_value ps)
                   end)
     | None => raise KeyError
     end).

Definition show_all : M reply := input_error (ret VBook).

Definition add_birthday (args : list string) : M reply :=
  input_error
    match args with
    | [nm; text] =>
        do found <- AddressBook.find nm ;;
        match found with
        | Some record =>
            exec call record (Rec.add_birthday text) ;;
            ret (VStr "Birthday added.")
        | None => raise KeyError
        end
    | _ => raise ValueError
    end.

Definition show_birthday (args : list string) : M reply :=
  input_error
    (do found <- AddressBook.find (Text.join "" args) ;;
     match found with
     | Some record =>
         do r <- deref record ;;
         match birthday r with
         | Some b => ret (VStr (PyDate.strftime_dmY (birthday_value b)))
         | None => ret (VStr "No birthday for this contact.")
         end
     | None => raise KeyError
     end).

Definition entry_line (item : Entry) : string :=
  (entry_name item ++ " - " ++ entry_birthday item)%string.

Definition birthdays (today : PyDate.date) (args : list string) : M reply :=
  input_error
    (do upcoming <- AddressBook.get_upcoming_birthdays today 7 ;;
     match upcoming with
     | [] => ret (VStr "No upcoming birthdays.")
     | _ => ret (VStr (Text.join AddressBook.newline (map entry_line upcoming)))
     end).

(** ** The dispatch loop *)

Definition parse_input (user_input : string) : result (string * list string) :=
  match Text.split user_input with
  | [] => Err ValueError
  | cmd :: args => Ok (Text.lower (Text.strip cmd), args)
  end.

(** What the console shows for a reply: [print(reply)]. *)
Definition display (v : reply) : M string :=
  match v with
  | VStr s => ret s
  | VBook => AddressBook.str
  end.

(** The branches of the loop body that go on with the loop. *)
Definition respond (today : PyDate.date) (command : string) (args : list string)
  : M string :=
  if String.eqb command "hello" then ret "How can I help you?"
  else if String.eqb command "add" then
    do v <- add_contact args ;; display v
  else if String.eqb command "change" then
    do v <- change_contact args ;; display v
  else if String.eqb command "phone" then
    do v <- show_phone args ;; display v
  else if String.eqb command "all" then
    do v <- show_all ;; display v
  else if String.eqb command "add-birthday" then
    do v <- add_birthday args ;; display v
  else if String.eqb command "show-birthday" then
    do v <- show_birthday args ;; display v
  else if String.eqb command "birthdays" then
    do v <- birthdays today args ;; display v
  else ret "Invalid command.".

(** What the user sees and what is saved. *)
Inductive event : Type :=
| Shown (text : string)
| Saved (snapshot : Store).

(** How a run ends: the loop is left through [close] or [exit], an
    exception leaves [main], or the store is malformed. *)
Inductive ending : Type :=
| Exited
| Crashed (e : exn)
| Broken.

(** The loop of [main] on the lines the user types; with no line left,
    reading raises [EOFError]. *)
Fixpoint main_loop (today : PyDate.date) (inputs : list string) (s : Store)
  : list event * ending * Store :=
  match inputs with
  | [] => ([], Crashed EOFError, s)
  | user_input :: later =>
      match parse_input user_input with
      | Err e => ([], Crashed e, s)
      | Ok (command, args) =>
          if String.eqb command "close" || String.eqb command "exit"
          then ([Shown "Goodbye!"; Saved s], Exited, s)
          else
            match respond today command args s with
            | (Return text, s') =>
                let '(evs, e, s'') := main_loop today later s' in
                (Shown text :: evs, e, s'')
            | (Raise e, s') => ([], Crashed e, s')
            | (Fault, s') => ([], Broken, s')
            end
      end
  end.

(** [main]: [book] is what [load_data] returns. *)
Definition main (today : PyDate.date) (inputs : list string) (book : Store)
  : list event * ending * Store :=
  let '(evs, e, s) := main_loop today inputs book in
  (Shown "Welcome to the assistant bot!" :: evs, e, s).


(** ** Vocabulary of the statements *)

(** *** Dates *)

(** What [month_day] has to deliver for day [n] of a year: a month, a day
    of that month, and the right number of days before them. *)
Definition month_day_ok (leap : bool) (n : Z) : bool :=
  let '(m, d) := PyDate.month_day leap n in
  (1 <=? m) && (m <=? 12) && (1 <=? d)
  && (d <=? PyDate.DAYS_IN_MONTH m + (if (m =? 2) && leap then 1 else 0))
  && (PyDate.DAYS_BEFORE_MONTH m + (if (2 <? m) && leap then 1 else 0) + d
      =? n + 1).

(** [m] is the first Monday after the day [t]. *)
Definition next_monday_after (t m : PyDate.date) : Prop :=
  PyDate.valid m /\ PyDate.weekday m = 0
  /\ PyDate.toordinal t < PyDate.toordinal m
  /\ forall x : PyDate.date,
      PyDate.valid x -> PyDate.weekday x = 0 ->
      PyDate.toordinal t < PyDate.toordinal x ->
      PyDate.toordinal m <= PyDate.toordinal x.

(** The date on which a selected birthday is reported: the Monday after a
    Saturday or a Sunday, the day itself otherwise. *)
Definition reported_on (bty c : PyDate.date) : Prop :=
  if 5 <=? PyDate.weekday bty then next_monday_after bty c else c = bty.



(** The day and month of [b] in the year [y]. *)
Definition in_year (b : PyDate.date) (y : Z) : PyDate.date :=
  PyDate.mkdate y (PyDate.month b) (PyDate.day b).

(** The birthday with the year replaced by the year of [today], and by the
    next year when that date is before [today]. *)
Definition next_occurrence (today b : PyDate.date) : PyDate.date :=
  if PyDate.lt (in_year b (PyDate.year today)) today
  then in_year b (PyDate.year today + 1)
  else in_year b (PyDate.year today).

(** The dates the computation goes through are dates of the calendar. *)
Definition occurs (today b : PyDate.date) : Prop :=
  PyDate.valid (in_year b (PyDate.year today))
  /\ PyDate.valid (next_occurrence today b).

(** The birthday of [r] falls within [days] days from [today], both ends
    included. *)
Definition due (today : PyDate.date) (days : Z) (r : RecordObj) : bool :=
  match birthday r with
  | Some b =>
      let n := PyDate.sub_days (next_occurrence today (birthday_value b)) today in
      (0 <=? n) && (n <=? days)
  | None => false
  end.

Definition rec_name (r : RecordObj) : string := name_value (name r).

(** *** Texts *)

Fixpoint all_digits (s : string) : bool :=
  match s with
  | EmptyString => true
  | String c rest => Text.isdigit c && all_digits rest
  end.

(** A line with nothing but whitespace. *)
Fixpoint blank (s : string) : bool :=
  match s with
  | EmptyString => true
  | String c rest => Text.isspace c && blank rest
  end.

(** The text [DD-MM-YYYY] made of eight characters. *)
Definition dmY_text (d1 d2 m1 m2 y1 y2 y3 y4 : ascii) : string :=
  String d1 (String d2 (String "-" (String m1 (String m2 (String "-"
    (String y1 (String y2 (String y3 (String y4 EmptyString))))))))).

(** The number written by two and by four decimal digits. *)
Definition num2 (a b : ascii) : Z := 10 * PyDate.dval a + PyDate.dval b.

Definition num4 (a b c d : ascii) : Z :=
  1000 * PyDate.dval a + 100 * PyDate.dval b + 10 * PyDate.dval c
  + PyDate.dval d.

(** [text] is the zero-padded [DD-MM-YYYY] writing of the day, month and
    year of [t]. *)
Definition denotes (text : string) (t : PyDate.date) : Prop :=
  exists d1 d2 m1 m2 y1 y2 y3 y4,
    text = dmY_text d1 d2 m1 m2 y1 y2 y3 y4
    /\ forallb Text.isdigit [d1; d2; m1; m2; y1; y2; y3; y4] = true
    /\ t = PyDate.mkdate (num4 y1 y2 y3 y4) (num2 m1 m2) (num2 d1 d2).

(** *** Records and the book *)

(** [i] is the position of the first phone of [ps] whose value is [v]. *)
Definition first_index (v : string) (ps : list Phone) (i : nat) : Prop :=
  (exists p, ps !! i = Some p /\ phone_value p = v)
  /\ forall j q, (j < i)%nat -> ps !! j = Some q -> phone_value q <> v.

Definition no_phone (v : string) (ps : list Phone) : Prop :=
  forall p, In p ps -> phone_value p <> v.

(** The book has no record under the name [nm]. *)
Definition absent (nm : string) (s : Store) : Prop :=
  ~ In nm (map fst (data s)).

(** Every key of the book leads to a record of that name. *)
Definition names_match (s : Store) : Prop :=
  forall k l, In (k, l) (data s) ->
    exists r, heap s !! l = Some r /\ name_value (name r) = k.

(** The book is a dictionary: no key occurs twice; and every key leads to a
    record of that name. *)
Definition book_ok (s : Store) : Prop :=
  names_match s /\ NoDup (map fst (data s)).

(** The methods of a record that change it. *)
Inductive method : Type :=
| m_add_phone (phone_number : string)
| m_add_birthday (text : string)
| m_remove_phone (phone_number : string)
| m_edit_phone (old_phone_number new_phone_number : string).

Definition run_method (m : method) (r : RecordObj) : result RecordObj :=
  match m with
  | m_add_phone p => Rec.add_phone p r
  | m_add_birthday t => Rec.add_birthday t r
  | m_remove_phone p => Ok (Rec.remove_phone p r)
  | m_edit_phone o n => Ok (Rec.edit_phone o n r)
  end.

(** One operation: a record is created, a method of a record is called
    (whether it returns or raises), or the book is asked to add a record,
    to find a name or to delete one. *)
Inductive step (s s' : Store) : Prop :=
| step_new nm l :
    alloc (Rec.new nm) s = (Return l, s') -> step s s'
| step_method l m u :
    call l (run_method m) s = (u, s') -> step s s'
| step_add_record record :
    AddressBook.add_record record s = (Return tt, s') -> step s s'
| step_find nm found :
    AddressBook.find nm s = (Return found, s') -> step s s'
| step_delete nm :
    AddressBook.delete nm s = (Return tt, s') -> step s s'.

(** The stores a sequence of operations leads to from an empty book. *)
Inductive reachable : Store -> Prop :=
| reach_empty h : reachable (empty_book h)
| reach_step s s' : reachable s -> step s s' -> reachable s'.

(** *** Computations *)

(** The exceptions [input_error] turns into an answer. *)
Definition catchable (e : exn) : Prop :=
  e = ValueError \/ e = IndexError \/ e = KeyError.

(** [hoare P m Q E]: from a store with [P], the computation [m] does not
    meet a missing object; when it returns [a] the store has [Q a], and
    when it raises [e] the store has [E e]. *)
Definition hoare {A} (P : Store -> Prop) (m : M A)
    (Q : A -> Store -> Prop) (E : exn -> Store -> Prop) : Prop :=
  forall s, P s ->
    match m s with
    | (Return a, s') => Q a s'
    | (Raise e, s') => E e s'
    | (Fault, _) => False
    end.

(** [m] keeps the book a well-formed dictionary, however it ends, and
    raises nothing but what [input_error] catches. *)
Definition keeps {A} (m : M A) : Prop :=
  hoare book_ok m (fun _ s => book_ok s)
    (fun e s => catchable e /\ book_ok s).

(** A wrapped handler returns, whatever the arguments, and keeps the book
    well formed. *)
Definition answers (m : M reply) : Prop :=
  hoare book_ok m (fun _ s => book_ok s) (fun _ _ => False).

(** [m] leaves the store as it is, however it ends. *)
Definition pure {A} (m : M A) : Prop := forall s, snd (m s) = s.

(** *** The dispatch loop *)

(** A token of a command line: not empty, and without whitespace. *)
Fixpoint no_space (s : string) : bool :=
  match s with
  | EmptyString => true
  | String c rest => negb (Text.isspace c) && no_space rest
  end.

Definition token (s : string) : Prop := s <> EmptyString /\ no_space s = true.

Definition is_exit (command : string) : bool :=
  String.eqb command "close" || String.eqb command "exit".

(** How a run on the lines [inputs] has to end, read off the lines alone:
    the first line that is blank or asks to leave decides. *)
Fixpoint expected_ending (inputs : list string) : ending :=
  match inputs with
  | [] => Crashed EOFError
  | line :: later =>
      match parse_input line with
      | Err e => Crashed e
      | Ok (command, _) =>
          if is_exit command then Exited else expected_ending later
      end
  end.

(** The commands that can change the book. *)
Definition changes_book (command : string) : bool :=
  String.eqb command "add" || String.eqb command "change"
  || String.eqb command "add-birthday".

(** The phones of the record under the name [nm], as texts; none when
    there is no such record. *)
Definition phones_of (nm : string) (s : Store) : list string :=
  match Dict.get nm (data s) with
  | Some l =>
      match heap s !! l with
      | Some r => map phone_value (phones r)
      | None => []
      end
  | None => []
  end.

(** The text of one digit, a dash, one digit, a dash and four digits. *)
Definition short_dmY_text (d m y1 y2 y3 y4 : ascii) : string :=
  String d (String "-" (String m (String "-"
    (String y1 (String y2 (String y3 (String y4 EmptyString))))))).

(** *** Stores of the examples *)

Definition alice : RecordObj :=
  mkRecord (mkName "alice") [mkPhone "0123456789"]
    (Some (mkBirthday (PyDate.mkdate 1990 2 26))).

Definition bob : RecordObj :=
  mkRecord (mkName "bob") [mkPhone "1234567890"]
    (Some (mkBirthday (PyDate.mkdate 2024 2 29))).

(** bob was born on a 29th of February. *)
Definition leap_book : Store :=
  mkStore [alice; bob] [("alice", 0%nat); ("bob", 1%nat)].

Definition carol : RecordObj :=
  mkRecord (mkName "carol") [mkPhone "5550001111"; mkPhone "5550002222"]
    (Some (mkBirthday (PyDate.mkdate 2000 11 7))).

(** The birthday of carol in 2026 is a Saturday. *)
Definition carol_book : Store := mkStore [carol] [("carol", 0%nat)].

(** ** Running a computation in a proof *)

Ltac munfold :=
  unfold input_error, bind, ret, raise, lift, deref, alloc, store, call,
    get_data, put_data, AddressBook.find, AddressBook.add_record,
    AddressBook.delete.

Ltac mrun := repeat (progress (munfold; cbn)).

(** ** Facts about dates *)

Module DateFacts.
Import PyDate.

Lemma is_leap_spec y :
  is_leap y = true <-> (y mod 4 = 0 /\ (y mod 100 <> 0 \/ y mod 400 = 0)).
Proof.
  unfold is_leap.
  rewrite andb_true_iff, orb_true_iff, negb_true_iff, !Z.eqb_eq, Z.eqb_neq.
  tauto.
Qed.

Lemma check_date_fields_spec y m d :
  check_date_fields y m d = true <->
  (1 <= y <= 9999 /\ 1 <= m <= 12 /\ 1 <= d <= days_in_month y m).
Proof.
  unfold check_date_fields, MINYEAR, MAXYEAR.
  rewrite !andb_true_iff, !Z.leb_le. tauto.
Qed.

Lemma new_valid y m d t : new y m d = Ok t -> valid t /\ t = mkdate y m d.
Proof.
  unfold new, valid. destruct (check_date_fields y m d) eqn:E; [|discriminate].
  intros [= <-]. auto.
Qed.

(** The month search of [ord2ymd] is checked on every day of a common
    year and of a leap year. *)
Lemma month_day_table :
  forallb (fun k => month_day_ok false (Z.of_nat k)) (seq 0%nat 365%nat)
  && forallb (fun k => month_day_ok true (Z.of_nat k)) (seq 0%nat 366%nat)
  = true.
Proof. vm_compute. reflexivity. Qed.

Lemma month_day_spec (leap : bool) (n : Z) :
  0 <= n < (if leap then 366 else 365) -> month_day_ok leap n = true.
Proof.
  intros Hn.
  pose proof month_day_table as H.
  apply andb_true_iff in H as [H0 H1].
  rewrite forallb_forall in H0, H1.
  rewrite <- (Z2Nat.id n) by lia.
  destruct leap; [apply H1 | apply H0]; apply in_seq; lia.
Qed.

(** [ord2ymd] inverts [ymd2ord] on every ordinal of the calendar, and
    its result passes the range check of the constructor. *)
Lemma ord2ymd_correct n :
  1 <= n <= MAXORDINAL ->
  let '(y, m, d) := ord2ymd n in
  check_date_fields y m d = true /\ ymd2ord y m d = n.
Proof.
  intros Hn. unfold MAXORDINAL in Hn. unfold ord2ymd.
  set (a := n - 1).
  set (n400 := a / 146097). set (r400 := a mod 146097).
  set (n100 := r400 / 36524). set (r100 := r400 mod 36524).
  set (n4 := r100 / 1461). set (r4 := r100 mod 1461).
  set (n1 := r4 / 365). set (r1 := r4 mod 365).
  cbv zeta.
  assert (Ha : a = 146097 * n400 + r400 /\ 0 <= r400 < 146097)
    by (subst n400 r400; split;
        [apply Z.div_mod; lia | apply Z.mod_pos_bound; lia]).
  assert (Hb : r400 = 36524 * n100 + r100 /\ 0 <= r100 < 36524)
    by (subst n100 r100; split;
        [apply Z.div_mod; lia | apply Z.mod_pos_bound; lia]).
  assert (Hc : r100 = 1461 * n4 + r4 /\ 0 <= r4 < 1461)
    by (subst n4 r4; split;
        [apply Z.div_mod; lia | apply Z.mod_pos_bound; lia]).
  assert (Hd : r4 = 365 * n1 + r1 /\ 0 <= r1 < 365)
    by (subst n1 r1; split;
        [apply Z.div_mod; lia | apply Z.mod_pos_bound; lia]).
  assert (a = n - 1) by reflexivity.
  clearbody a n400 r400 n100 r100 n4 r4 n1 r1.
  destruct ((n1 =? 4) || (n100 =? 4)) eqn:Hlast.
  - (* the last day of a leap year *)
    apply orb_true_iff in Hlast. rewrite !Z.eqb_eq in Hlast.
    assert (Hleap :
      is_leap (n400 * 400 + 1 + n100 * 100 + n4 * 4 + n1 - 1) = true).
    { apply is_leap_spec. Z.div_mod_to_equations. lia. }
    unfold check_date_fields, ymd2ord, days_in_month, days_before_month.
    rewrite Hleap.
    cbn [Z.eqb Z.ltb Z.leb Z.compare Pos.compare Pos.compare_cont Pos.eqb
         andb DAYS_IN_MONTH DAYS_BEFORE_MONTH].
    unfold MINYEAR, MAXYEAR, days_before_year. cbv zeta.
    rewrite !andb_true_r. rewrite andb_true_iff, !Z.leb_le.
    Z.div_mod_to_equations. lia.
  - apply orb_false_iff in Hlast. rewrite !Z.eqb_neq in Hlast.
    set (leapyear := (n1 =? 3) && (negb (n4 =? 24) || (n100 =? 3))).
    assert (Hleap :
      is_leap (n400 * 400 + 1 + n100 * 100 + n4 * 4 + n1) = leapyear).
    { subst leapyear. apply eq_true_iff_eq. rewrite is_leap_spec.
      rewrite andb_true_iff, orb_true_iff, negb_true_iff, !Z.eqb_eq, Z.eqb_neq.
      Z.div_mod_to_equations. lia. }
    pose proof (month_day_spec leapyear r1) as Hmd.
    unfold month_day_ok in Hmd.
    destruct (month_day leapyear r1) as [m d].
    rewrite !andb_true_iff, !Z.leb_le, Z.eqb_eq in Hmd.
    destruct Hmd as [[[[Hm1 Hm2] Hd1] Hd2] Hsum]; [destruct leapyear; lia |].
    unfold check_date_fields, ymd2ord, days_in_month, days_before_month.
    rewrite Hleap.
    unfold MINYEAR, MAXYEAR, days_before_year. cbv zeta.
    rewrite !andb_true_iff, !Z.leb_le.
    assert (Hdim : d <= (if (m =? 2) && leapyear then 29 else DAYS_IN_MONTH m)).
    { destruct ((m =? 2) && leapyear) eqn:E; [|lia].
      apply andb_true_iff in E as [E _]. apply Z.eqb_eq in E. subst m.
      cbn in Hd2. lia. }
    clear Hleap.
    Z.div_mod_to_equations. lia.
Qed.

Lemma year_length (y m : Z) :
  1 <= m <= 12 ->
  0 <= days_before_month y m /\
  days_before_month y m + days_in_month y m
  <= (if is_leap y then 366 else 365).
Proof.
  intros Hm. unfold days_before_month, days_in_month.
  assert (Hc : m = 1 \/ m = 2 \/ m = 3 \/ m = 4 \/ m = 5 \/ m = 6 \/ m = 7
               \/ m = 8 \/ m = 9 \/ m = 10 \/ m = 11 \/ m = 12) by lia.
  destruct (is_leap y);
    repeat (destruct Hc as [-> | Hc]; [cbn; lia |]); subst m; cbn; lia.
Qed.

Lemma toordinal_bounds t : valid t -> 1 <= toordinal t <= MAXORDINAL.
Proof.
  unfold valid, toordinal, ymd2ord, MAXORDINAL.
  rewrite check_date_fields_spec. intros (Hy & Hm & Hd).
  pose proof (year_length (year t) (month t) Hm) as [H0 H1].
  assert (Hl : is_leap (year t) = true -> year t mod 4 = 0)
    by (rewrite is_leap_spec; tauto).
  unfold days_before_year. cbv zeta.
  destruct (is_leap (year t)); [specialize (Hl eq_refl) | clear Hl];
    Z.div_mod_to_equations; lia.
Qed.

Lemma fromordinal_valid n : 1 <= n <= MAXORDINAL -> valid (fromordinal n).
Proof.
  intros Hn. pose proof (ord2ymd_correct n Hn) as H.
  unfold valid, fromordinal. destruct (ord2ymd n) as [[y m] d]. apply H.
Qed.

Lemma toordinal_fromordinal n :
  1 <= n <= MAXORDINAL -> toordinal (fromordinal n) = n.
Proof.
  intros Hn. pose proof (ord2ymd_correct n Hn) as H.
  unfold toordinal, fromordinal. destruct (ord2ymd n) as [[y m] d]. apply H.
Qed.

Lemma weekday_range t : 0 <= weekday t < 7.
Proof. unfold weekday. apply Z.mod_pos_bound. lia. Qed.

(** A weekend day is followed by a Monday of the calendar: the last day,
    9999-12-31, is a Friday. *)
Lemma adjust_for_weekend_spec t :
  valid t ->
  exists c, AddressBook.adjust_for_weekend t = Ok c /\ reported_on t c.
Proof.
  intros Hv. pose proof (toordinal_bounds t Hv) as Hb.
  unfold AddressBook.adjust_for_weekend, reported_on.
  destruct (5 <=? weekday t) eqn:Hwe; [|eauto].
  apply Z.leb_le in Hwe. pose proof (weekday_range t) as Hr.
  unfold AddressBook.find_next_weekday, add_days.
  replace (0 - weekday t <=? 0) with true by (symmetry; apply Z.leb_le; lia).
  set (o := toordinal t + (0 - weekday t + 7)).
  assert (Ho : 1 <= o <= MAXORDINAL /\ (o + 6) mod 7 = 0
               /\ toordinal t < o <= toordinal t + 2).
  { subst o. unfold weekday, MAXORDINAL in *. Z.div_mod_to_equations. lia. }
  destruct Ho as (Ho & Hmon & Hnear).
  replace ((0 <? o) && (o <=? MAXORDINAL)) with true
    by (symmetry; apply andb_true_iff; rewrite Z.ltb_lt, Z.leb_le; lia).
  exists (fromordinal o). split; [reflexivity |].
  unfold next_monday_after, weekday.
  rewrite (toordinal_fromordinal o Ho).
  split; [apply fromordinal_valid, Ho |].
  split; [exact Hmon |]. split; [lia |].
  intros x _ Hx Hlt. unfold weekday in *. Z.div_mod_to_equations. lia.
Qed.

Lemma birthday_this_year_valid today b bty :
  AddressBook.birthday_this_year today b = Ok bty -> valid bty.
Proof.
  unfold AddressBook.birthday_this_year, replace_year, rbind.
  destruct (new (year today) _ _) as [t1|] eqn:E1; [|discriminate].
  destruct (lt t1 today).
  - intros H. apply new_valid in H. tauto.
  - intros [= <-]. apply new_valid in E1. tauto.
Qed.

End DateFacts.

(** ** Facts about computations on the store *)

Lemma bind_Return {A B} (m : M A) (k : A -> M B) s b s' :
  bind m k s = (Return b, s') ->
  exists a s1, m s = (Return a, s1) /\ k a s1 = (Return b, s').
Proof.
  unfold bind. destruct (m s) as [[a| |] s1]; intros H; try discriminate.
  eauto.
Qed.



(** ** Facts about the dictionary *)

Lemma get_absent {V} nm (d : list (string * V)) :
  Dict.get nm d = None <-> ~ In nm (map fst d).
Proof.
  induction d as [|[k v] d IH]; cbn; [tauto |].
  destruct (String.eqb_spec k nm) as [E|E].
  - split; [discriminate | intros H; destruct H; auto].
  - rewrite IH. tauto.
Qed.

Lemma set_absent {V} nm (v : V) (d : list (string * V)) :
  ~ In nm (map fst d) -> Dict.set nm v d = d ++ [(nm, v)].
Proof.
  induction d as [|[k w] d IH]; cbn; intros H; [reflexivity |].
  destruct (String.eqb_spec k nm) as [E|E]; [destruct H; auto |].
  f_equal. apply IH. tauto.
Qed.

Lemma in_set {V} k (v : V) d k' v' :
  In (k', v') (Dict.set k v d) -> In (k', v') d \/ (k' = k /\ v' = v).
Proof.
  induction d as [|[k0 v0] d IH]; cbn.
  - intros [[= <- <-] | []]. auto.
  - destruct (String.eqb_spec k0 k) as [E|E]; cbn.
    + intros [[= <- <-] | H]; auto.
    + intros [H | H]; auto. destruct (IH H); auto.
Qed.

Lemma in_del {V} k (d : list (string * V)) e :
  In e (Dict.del k d) -> In e d.
Proof.
  induction d as [|[k0 v0] d IH]; cbn; [auto |].
  destruct (String.eqb_spec k0 k); cbn; [auto |].
  intros [H | H]; auto.
Qed.

(** ** Phones *)

(** A text of another length than 10 is refused. *)
Lemma new_Phone_wrong_length v :
  Text.len v <> 10 -> new_Phone v = Err ValueError.
Proof.
  intros H. unfold new_Phone.
  destruct (Z.eqb_spec (Text.len v) 10); [contradiction | reflexivity].
Qed.

(** A text of length 10 is accepted and kept as it is. *)
Lemma new_Phone_ten v :
  Text.len v = 10 -> exists p, new_Phone v = Ok p /\ to_str p = v.
Proof.
  intros H. unfold new_Phone. rewrite H. cbn. eauto.
Qed.

(** C1: a phone must be refused unless it is exactly 10 digits.  The
    constructor tests the length only: the ten letters [abcdefghij], which
    are not digits, are accepted and stored. *)
Theorem new_Phone_accepts_letters :
  all_digits "abcdefghij" = false
  /\ new_Phone "abcdefghij" = Ok (mkPhone "abcdefghij").
Proof. split; reflexivity. Qed.

(** ** Records *)

Lemma find_first_None v ps :
  Rec.find_first v ps = None <-> no_phone v ps.
Proof.
  unfold no_phone. induction ps as [|p ps IH]; cbn.
  - split; [intros _ q [] | reflexivity].
  - destruct (String.eqb_spec (phone_value p) v) as [E|E].
    + split; [discriminate | intros H; destruct (H p); auto].
    + rewrite IH. split.
      * intros H q [<- | Hq]; auto.
      * intros H q Hq. apply H. auto.
Qed.

(** Without a phone of the old value, [edit_phone] changes nothing. *)
Lemma edit_first_absent v w ps :
  no_phone v ps -> Rec.edit_first v w ps = ps.
Proof.
  unfold no_phone. induction ps as [|p ps IH]; cbn; intros H; [reflexivity |].
  destruct (String.eqb_spec (phone_value p) v) as [E|E].
  - destruct (H p); auto.
  - f_equal. apply IH. intros q Hq. apply H. auto.
Qed.


(** C5: [edit_phone] has to validate the new value before it replaces the
    old one.  It does not: the text [abc], which [Phone] refuses, becomes
    the value of the stored phone and nothing is raised. *)
Theorem edit_phone_unvalidated :
  new_Phone "abc" = Err ValueError
  /\ Rec.edit_phone "1234567890" "abc"
       (mkRecord (mkName "john") [mkPhone "1234567890"] None)
     = mkRecord (mkName "john") [mkPhone "abc"] None.
Proof. split; reflexivity. Qed.

(** ** The handlers [add] and [change] *)

(** With fewer than two tokens the unpacking of the arguments raises
    [ValueError], which the wrapper reports as such. *)
Lemma add_contact_too_few (args : list string) (s : Store) :
  (length args < 2)%nat ->
  add_contact args s = (Return (VStr "Incorrect value."), s).
Proof.
  intros H. destruct args as [|a [|b rest]]; cbn in H; try lia; reflexivity.
Qed.

(** C2: [add] with fewer than two tokens has to answer "Give me name and
    phone please.".  With the one token [john] it answers "Incorrect
    value.": unpacking raises [ValueError], not [IndexError]. *)
Theorem add_contact_one_token :
  add_contact ["john"] (empty_book [])
  = (Return (VStr "Incorrect value."), empty_book []).
Proof. reflexivity. Qed.



(** The claim C10 says that for every absent name and every malformed
    phone the handler answers with the recovered error.  The empty text is
    a malformed phone, and for it the handler answers "Contact added.":
    the test [if phone] skips the construction of the phone. *)
Lemma add_contact_empty_phone :
  absent "bob" (empty_book [])
  /\ new_Phone "" = Err ValueError
  /\ add_contact ["bob"; ""] (empty_book [])
     = (Return (VStr "Contact added."),
        mkStore [Rec.new "bob"] [("bob", 0%nat)]).
Proof. split; [intros [] | split; reflexivity]. Qed.

(** C10, as amended: for a name the book does not have and a phone that is
    not empty and whose length is not 10, [add] answers "Incorrect value."
    and the book is not as it was: a new record of that name, without
    phones, has been added to it. *)
Theorem add_contact_not_atomic
    (s : Store) (nm phone : string) (more : list string) :
  absent nm s -> phone <> "" -> Text.len phone <> 10 ->
  add_contact (nm :: phone :: more) s
  = (Return (VStr "Incorrect value."),
     mkStore (heap s ++ [Rec.new nm]) (data s ++ [(nm, length (heap s))])).
Proof.
  intros Ha Hne Hlen. pose proof Ha as Hg. apply get_absent in Hg.
  unfold add_contact. mrun. rewrite Hg. mrun.
  rewrite lookup_app_r by lia. rewrite Nat.sub_diag. cbn.
  rewrite (set_absent _ _ _ Ha).
  destruct phone as [|c phone]; [contradiction |]. mrun.
  rewrite lookup_app_r by lia. rewrite Nat.sub_diag. cbn.
  unfold Rec.add_phone. rewrite (new_Phone_wrong_length _ Hlen). reflexivity.
Qed.

Lemma add_contact_not_atomic_witness :
  add_contact ["dave"; "12345"] carol_book
  = (Return (VStr "Incorrect value."),
     mkStore [carol; Rec.new "dave"] [("carol", 0%nat); ("dave", 1%nat)]).
Proof.
  apply (add_contact_not_atomic carol_book "dave" "12345" []).
  - intros [H | []]. discriminate H.
  - discriminate.
  - vm_compute. discriminate.
Defined.

(** ** Upcoming birthdays *)

Section Upcoming.
Variables (today : PyDate.date) (days : Z).



Lemma birthday_this_year_occurs b :
  occurs today (birthday_value b) ->
  AddressBook.birthday_this_year today b
  = Ok (next_occurrence today (birthday_value b)).
Proof.
  intros [H1 H2].
  unfold AddressBook.birthday_this_year, PyDate.replace_year, rbind.
  unfold next_occurrence in *. unfold PyDate.valid, in_year in *. cbn in H1.
  unfold PyDate.new at 1. rewrite H1.
  fold (in_year (birthday_value b) (PyDate.year today)).
  destruct (PyDate.lt _ today); [| reflexivity].
  cbn in *. unfold PyDate.new. rewrite H2. reflexivity.
Qed.

Lemma upcoming_loop_selects rs : forall acc,
  (forall r b, In r rs -> birthday r = Some b ->
               occurs today (birthday_value b)) ->
  exists out, AddressBook.upcoming_loop today days rs acc = Ok out
    /\ map entry_name out
       = map entry_name acc ++ map rec_name (List.filter (due today days) rs).
Proof.
  induction rs as [|r rest IH]; intros acc Hocc;
    cbn [AddressBook.upcoming_loop List.filter].
  - exists acc. rewrite app_nil_r. auto.
  - assert (Hrest : forall r' b, In r' rest -> birthday r' = Some b ->
                      occurs today (birthday_value b))
      by (intros; eapply Hocc; [right |]; eauto).
    unfold due at 1.
    destruct (birthday r) as [b|] eqn:Eb; [| exact (IH acc Hrest)].
    assert (Ho : occurs today (birthday_value b))
      by (eapply Hocc; [left |]; eauto).
    rewrite (birthday_this_year_occurs _ Ho).
    unfold AddressBook.in_window. cbv zeta.
    destruct ((0 <=? _) && (_ <=? days)); [| exact (IH acc Hrest)].
    destruct (DateFacts.adjust_for_weekend_spec _ (proj2 Ho)) as (c & -> & _).
    destruct (IH (acc ++ [mkEntry (name_value (name r))
                            (PyDate.strftime_Ymd c)]) Hrest)
      as (out & -> & Hout).
    exists out. split; [reflexivity |].
    rewrite Hout, map_app, <- app_assoc. reflexivity.
Qed.

(** Where every birthday of the book exists in the years it is moved to,
    the call returns, and the names it returns are those of the records
    whose birthday is due, in the order of the book. *)
Lemma get_upcoming_birthdays_selects s rs :
  AddressBook.records s = (Return rs, s) ->
  (forall r b, In r rs -> birthday r = Some b ->
               occurs today (birthday_value b)) ->
  exists out,
    AddressBook.get_upcoming_birthdays today days s = (Return out, s)
    /\ map entry_name out = map rec_name (List.filter (due today days) rs).
Proof.
  intros Hrs Hocc.
  destruct (upcoming_loop_selects rs [] Hocc)
    as (out & Hout & Hnames).
  exists out. split; [| exact Hnames].
  unfold AddressBook.get_upcoming_birthdays, bind.
  rewrite Hrs, Hout. reflexivity.
Qed.

End Upcoming.


(** C3: every record whose birthday is due within [days] days has to be
    selected.  On 2025-02-25 the birthday of alice, the 26th of February,
    is due; the book also holds bob, born on a 29th of February, a day
    2025 does not have: moving his birthday into 2025 raises [ValueError],
    the call returns nothing, and [birthdays] answers "Incorrect value.". *)
Theorem upcoming_birthdays_leap_day :
  due (PyDate.mkdate 2025 2 25) 7 alice = true
  /\ AddressBook.get_upcoming_birthdays (PyDate.mkdate 2025 2 25) 7 leap_book
     = (Raise ValueError, leap_book)
  /\ birthdays (PyDate.mkdate 2025 2 25) [] leap_book
     = (Return (VStr "Incorrect value."), leap_book).
Proof. vm_compute. auto. Qed.

(** ** Reading and writing a birthday *)

Module ParseFacts.
Import PyDate.

Lemma digit_cases c :
  Text.isdigit c = true ->
  In c ["0"; "1"; "2"; "3"; "4"; "5"; "6"; "7"; "8"; "9"]%char.
Proof.
  destruct c as [[] [] [] [] [] [] [] []]; intros H;
    try discriminate H; cbn; tauto.
Qed.

Lemma dval_range c : Text.isdigit c = true -> 0 <= dval c <= 9.
Proof.
  unfold Text.isdigit, dval. rewrite andb_true_iff, !Z.leb_le. lia.
Qed.

Lemma digit_char_dval c :
  Text.isdigit c = true -> Text.digit_char (dval c) = c.
Proof.
  intros H. apply dval_range in H.
  unfold Text.digit_char, dval, Text.code in *.
  replace (48 + (Z.of_nat (nat_of_ascii c) - 48))
    with (Z.of_nat (nat_of_ascii c)) by lia.
  rewrite Nat2Z.id. apply ascii_nat_embedding.
Qed.

Lemma pad2_num2 a b :
  Text.isdigit a = true -> Text.isdigit b = true ->
  Text.pad2 (num2 a b) = String a (String b EmptyString).
Proof.
  intros Ha Hb. unfold Text.pad2, num2.
  pose proof (dval_range a Ha). pose proof (dval_range b Hb).
  replace ((10 * dval a + dval b) / 10) with (dval a)
    by (Z.div_mod_to_equations; lia).
  replace ((10 * dval a + dval b) mod 10) with (dval b)
    by (Z.div_mod_to_equations; lia).
  rewrite !digit_char_dval by assumption. reflexivity.
Qed.

Lemma pad4_num4 a b c d :
  Text.isdigit a = true -> Text.isdigit b = true ->
  Text.isdigit c = true -> Text.isdigit d = true ->
  Text.pad4 (num4 a b c d)
  = String a (String b (String c (String d EmptyString))).
Proof.
  intros Ha Hb Hc Hd. unfold Text.pad4, num4.
  pose proof (dval_range a Ha). pose proof (dval_range b Hb).
  pose proof (dval_range c Hc). pose proof (dval_range d Hd).
  set (n := 1000 * dval a + 100 * dval b + 10 * dval c + dval d).
  replace (n / 1000) with (dval a) by (subst n; Z.div_mod_to_equations; lia).
  replace (n / 100 mod 10) with (dval b)
    by (subst n; Z.div_mod_to_equations; lia).
  replace (n / 10 mod 10) with (dval c)
    by (subst n; Z.div_mod_to_equations; lia).
  replace (n mod 10) with (dval d) by (subst n; Z.div_mod_to_equations; lia).
  rewrite !digit_char_dval by assumption. reflexivity.
Qed.

(** From the year 1000 on the plain decimal has four digits. *)
Lemma decimal_pad4 n : 1000 <= n -> Text.decimal n = Text.pad4 n.
Proof.
  intros Hn. unfold Text.decimal.
  destruct (Z.ltb_spec n 10); [lia |].
  destruct (Z.ltb_spec n 100); [lia |].
  destruct (Z.ltb_spec n 1000); [lia |]. reflexivity.
Qed.

(** Below 1000 it has at most three. *)
Lemma decimal_short n : n < 1000 -> (String.length (Text.decimal n) <= 3)%nat.
Proof.
  intros Hn. unfold Text.decimal, Text.pad2.
  destruct (Z.ltb_spec n 10); [cbn; lia |].
  destruct (Z.ltb_spec n 100); [cbn; lia |].
  destruct (Z.ltb_spec n 1000); [cbn; lia | lia].
Qed.

Lemma decimal_num4 a b c d :
  Text.isdigit a = true -> Text.isdigit b = true ->
  Text.isdigit c = true -> Text.isdigit d = true ->
  Text.decimal (num4 a b c d)
  = String a (String b (String c (String d EmptyString)))
  <-> 1000 <= num4 a b c d.
Proof.
  intros Ha Hb Hc Hd. split.
  - intros Heq. destruct (Z_lt_dec (num4 a b c d) 1000) as [Hlt | Hge]; [| lia].
    apply decimal_short in Hlt. rewrite Heq in Hlt. cbn in Hlt. lia.
  - intros Hn. rewrite decimal_pad4 by assumption. now apply pad4_num4.
Qed.

Ltac by_digits Ha Hb Hr :=
  apply digit_cases in Ha, Hb; cbn in Ha, Hb;
  repeat (destruct Ha as [<- | Ha]); try contradiction;
  repeat (destruct Hb as [<- | Hb]); try contradiction;
  try (exfalso; vm_compute in Hr; destruct Hr as [H1 H2];
       (now apply H1) || (now apply H2));
  vm_compute; reflexivity.

(** What [%d] and [%m] find at two digits that write a day or a month:
    the two-digit reading first, then the reading of the first digit
    alone. *)
Lemma directive_d_two a b rest :
  Text.isdigit a = true -> Text.isdigit b = true ->
  1 <= num2 a b <= 31 ->
  directive_d (String a (String b rest))
  = (num2 a b, rest)
      :: (if in_range a 49 57 then [(dval a, String b rest)] else []).
Proof. intros Ha Hb Hr. by_digits Ha Hb Hr. Qed.

Lemma directive_m_two a b rest :
  Text.isdigit a = true -> Text.isdigit b = true ->
  1 <= num2 a b <= 12 ->
  directive_m (String a (String b rest))
  = (num2 a b, rest)
      :: (if in_range a 49 57 then [(dval a, String b rest)] else []).
Proof. intros Ha Hb Hr. by_digits Ha Hb Hr. Qed.

(** The separator does not match a digit, so the reading of one digit
    alone leads nowhere. *)
Lemma literal_digit b rest :
  Text.isdigit b = true -> literal "-" (String b rest) = [].
Proof.
  intros Hb. apply digit_cases in Hb. cbn in Hb.
  repeat (destruct Hb as [<- | Hb]); try contradiction; reflexivity.
Qed.

Lemma directive_Y_four a b c d rest :
  Text.isdigit a = true -> Text.isdigit b = true ->
  Text.isdigit c = true -> Text.isdigit d = true ->
  directive_Y (String a (String b (String c (String d rest))))
  = [(num4 a b c d, rest)].
Proof. intros Ha Hb Hc Hd. cbn. rewrite Ha, Hb, Hc, Hd. reflexivity. Qed.

Lemma match_dmY_text d1 d2 m1 m2 y1 y2 y3 y4 :
  forallb Text.isdigit [d1; d2; m1; m2; y1; y2; y3; y4] = true ->
  1 <= num2 d1 d2 <= 31 -> 1 <= num2 m1 m2 <= 12 ->
  match_dmY (dmY_text d1 d2 m1 m2 y1 y2 y3 y4)
  = [((num2 d1 d2, num2 m1 m2, num4 y1 y2 y3 y4), EmptyString)].
Proof.
  cbn [forallb]. rewrite !andb_true_iff.
  intros (H1 & H2 & H3 & H4 & H5 & H6 & H7 & H8 & _) Hd Hm.
  unfold match_dmY, dmY_text.
  rewrite (directive_d_two _ _ _ H1 H2 Hd).
  unfold pbind at 1. cbn [flat_map].
  replace (flat_map _ (if in_range d1 49 57 then _ else _))
    with (@nil (Z * Z * Z * string)).
  2:{ destruct (in_range d1 49 57); [| reflexivity].
      cbn [flat_map]. rewrite (literal_digit _ _ H2). reflexivity. }
  rewrite app_nil_r.
  cbn [literal]. cbn [Ascii.eqb Bool.eqb]. unfold pbind at 1. cbn [flat_map].
  rewrite app_nil_r.
  rewrite (directive_m_two _ _ _ H3 H4 Hm).
  unfold pbind at 1. cbn [flat_map].
  replace (flat_map _ (if in_range m1 49 57 then _ else _))
    with (@nil (Z * Z * Z * string)).
  2:{ destruct (in_range m1 49 57); [| reflexivity].
      cbn [flat_map]. rewrite (literal_digit _ _ H4). reflexivity. }
  rewrite app_nil_r.
  cbn [literal]. cbn [Ascii.eqb Bool.eqb]. unfold pbind at 1. cbn [flat_map].
  rewrite app_nil_r.
  rewrite (directive_Y_four _ _ _ _ _ H5 H6 H7 H8).
  reflexivity.
Qed.

End ParseFacts.




(** ** The invariant of the book *)

Lemma run_method_name m r r' : run_method m r = Ok r' -> name r' = name r.
Proof.
  destruct m; cbn; unfold Rec.add_phone, Rec.add_birthday, rbind.
  - destruct (new_Phone _); [|discriminate]. intros [= <-]. reflexivity.
  - destruct (new_Birthday _); [|discriminate]. intros [= <-]. reflexivity.
  - intros [= <-]. reflexivity.
  - intros [= <-]. reflexivity.
Qed.

Lemma step_preserves s s' : names_match s -> step s s' -> names_match s'.
Proof.
  intros Hinv Hstep k l Hin.
  destruct Hstep as [nm l0 H | l0 m u H | record H | nm found H | nm H].
  - (* a new record *)
    revert H. mrun. intros [= _ <-]. cbn in *.
    destruct (Hinv k l Hin) as (r & Hr & Hk). exists r.
    split; [| exact Hk]. rewrite lookup_app_l; [exact Hr |].
    eapply lookup_lt_Some, Hr.
  - (* a method of a record *)
    revert H. mrun. destruct (heap s !! l0) as [r0|] eqn:E0.
    2:{ intros [= _ <-]. auto. }
    destruct (run_method m r0) as [r1|e] eqn:E1; mrun.
    2:{ intros [= _ <-]. auto. }
    intros [= _ <-]. cbn in *.
    destruct (Hinv k l Hin) as (r & Hr & Hk).
    destruct (Nat.eq_dec l0 l) as [-> | Hne].
    + exists r1. rewrite list_lookup_insert_eq by (eapply lookup_lt_Some, Hr).
      split; [reflexivity |].
      rewrite (run_method_name _ _ _ E1). congruence.
    + exists r. rewrite list_lookup_insert_ne by exact Hne. auto.
  - (* add_record *)
    revert H. mrun. destruct (heap s !! record) as [r0|] eqn:E0; mrun;
      [| discriminate].
    intros [= <-]. cbn in *.
    apply in_set in Hin as [Hin | [-> ->]]; [auto | eauto].
  - (* find *)
    revert H. mrun. intros [= _ <-]. auto.
  - (* delete *)
    revert H. mrun. destruct (Dict.mem nm (data s)); mrun; intros [= <-]; auto.
    cbn in Hin. apply in_del in Hin. auto.
Qed.

(** C8: in every book reached from an empty one by a sequence of
    operations, each record sits under the key that is its own name, and
    each operation keeps it so. *)
Theorem names_match_invariant :
  (forall s, reachable s -> names_match s)
  /\ (forall s s', names_match s -> step s s' -> names_match s').
Proof.
  split; [| exact step_preserves].
  induction 1 as [h | s s' _ IH Hstep].
  - intros k l [].
  - eapply step_preserves; eauto.
Qed.

Lemma names_match_invariant_witness :
  names_match (mkStore [Rec.new "ann"] [("ann", 0%nat)]).
Proof.
  apply (proj1 names_match_invariant).
  apply (reach_step (mkStore [Rec.new "ann"] [])).
  - apply (reach_step (empty_book [])); [apply reach_empty |].
    apply (step_new _ _ "ann" 0%nat). reflexivity.
  - apply (step_add_record _ _ 0%nat). reflexivity.
Defined.

(** ** The handlers keep the book well formed *)

Section Hoare.
Context {A B : Type}.
Implicit Types (P : Store -> Prop) (E : exn -> Store -> Prop).

Lemma hoare_bind P (m : M A) (k : A -> M B) Q R E :
  hoare P m Q E -> (forall a, hoare (Q a) (k a) R E) ->
  hoare P (bind m k) R E.
Proof.
  intros Hm Hk s H. specialize (Hm s H). unfold bind.
  destruct (m s) as [[a| e |] s1]; [| exact Hm | exact Hm].
  apply (Hk a s1 Hm).
Qed.

Lemma hoare_conseq P P' (m : M A) (Q Q' : A -> Store -> Prop) E E' :
  hoare P m Q E ->
  (forall s, P' s -> P s) -> (forall a s, Q a s -> Q' a s) ->
  (forall e s, E e s -> E' e s) ->
  hoare P' m Q' E'.
Proof.
  intros Hm HP HQ HE s H. specialize (Hm s (HP s H)).
  destruct (m s) as [[a| e |] s1]; auto.
Qed.

Lemma keeps_ret (a : A) : keeps (ret a).
Proof. intros s H. exact H. Qed.

Lemma keeps_raise (e : exn) : catchable e -> keeps (@raise A e).
Proof. intros He s H. split; assumption. Qed.

Lemma keeps_bind (m : M A) (k : A -> M B) :
  keeps m -> (forall a, keeps (k a)) -> keeps (bind m k).
Proof. intros Hm Hk. eapply hoare_bind; [exact Hm | exact Hk]. Qed.

End Hoare.

Lemma catchable_ValueError : catchable ValueError.
Proof. left. reflexivity. Qed.

Lemma catchable_KeyError : catchable KeyError.
Proof. right. right. reflexivity. Qed.

(** What [input_error] catches becomes an answer, and the store is as the
    wrapped function left it: a wrapped function that raises nothing else
    always returns. *)
Lemma hoare_input_error (P I : Store -> Prop) (f : M reply) :
  hoare P f (fun _ s => I s) (fun e s => catchable e /\ I s) ->
  hoare P (input_error f) (fun _ s => I s) (fun _ _ => False).
Proof.
  intros Hf s H. specialize (Hf s H). unfold input_error.
  destruct (f s) as [[a| [] |] s1]; try tauto;
    destruct Hf as [[Hc | [Hc | Hc]] _]; discriminate Hc.
Qed.

Lemma get_In {V} nm (d : list (string * V)) v :
  Dict.get nm d = Some v -> In (nm, v) d.
Proof.
  induction d as [|[k w] d IH]; cbn; [discriminate |].
  destruct (String.eqb_spec k nm) as [-> | E]; [intros [= ->]; auto | auto].
Qed.

Lemma set_keys {V} k (v : V) d :
  map fst (Dict.set k v d)
  = if Dict.mem k d then map fst d else map fst d ++ [k].
Proof.
  unfold Dict.mem. induction d as [|[k0 v0] d IH]; cbn; [reflexivity |].
  destruct (String.eqb_spec k0 k) as [E|E]; cbn; [reflexivity |].
  rewrite IH. destruct (Dict.get k d); reflexivity.
Qed.

Lemma set_keys_NoDup {V} k (v : V) d :
  NoDup (map fst d) -> NoDup (map fst (Dict.set k v d)).
Proof.
  intros H. rewrite set_keys. unfold Dict.mem.
  destruct (Dict.get k d) eqn:E; [exact H |].
  apply get_absent in E. apply NoDup_app. repeat split.
  - exact H.
  - intros x Hx Hk. apply list_elem_of_In in Hx, Hk.
    destruct Hk as [<- | []]. contradiction.
  - apply NoDup_singleton.
Qed.

Lemma del_keys_NoDup {V} k (d : list (string * V)) :
  NoDup (map fst d) -> NoDup (map fst (Dict.del k d)).
Proof.
  induction d as [|[k0 v0] d IH]; cbn; [auto |].
  intros H. apply NoDup_cons in H as [Hk0 H].
  destruct (String.eqb_spec k0 k); cbn; [exact H |].
  apply NoDup_cons. split; [| auto].
  intros Hin. apply Hk0. apply list_elem_of_In in Hin. apply list_elem_of_In.
  apply in_map_iff in Hin as (e & He & Hin). apply in_map_iff.
  exists e. split; [exact He | eapply in_del, Hin].
Qed.

(** Every operation keeps the keys of the book distinct. *)
Lemma step_keys s s' :
  NoDup (map fst (data s)) -> step s s' -> NoDup (map fst (data s')).
Proof.
  intros Hnd Hstep.
  destruct Hstep as [nm l0 H | l0 m u H | record H | nm found H | nm H];
    revert H; mrun.
  - intros [= _ <-]. exact Hnd.
  - destruct (heap s !! l0) as [r0|]; [| intros [= _ <-]; exact Hnd].
    destruct (run_method m r0); mrun; intros [= _ <-]; exact Hnd.
  - destruct (heap s !! record) as [r0|]; mrun; [| discriminate].
    intros [= <-]. cbn. apply set_keys_NoDup, Hnd.
  - intros [= _ <-]. exact Hnd.
  - destruct (Dict.mem nm (data s)); mrun; intros [= <-]; [| exact Hnd].
    cbn. apply del_keys_NoDup, Hnd.
Qed.

Lemma reachable_book_ok s : reachable s -> book_ok s.
Proof.
  induction 1 as [h | s s' _ [IH1 IH2] Hstep].
  - split; [intros k l [] | constructor].
  - split; [eapply step_preserves | eapply step_keys]; eauto.
Qed.

Lemma hoare_find nm :
  hoare book_ok (AddressBook.find nm)
    (fun found s =>
       book_ok s
       /\ match found with
          | Some l => exists r, heap s !! l = Some r /\ name_value (name r) = nm
          | None => True
          end)
    (fun e s => catchable e /\ book_ok s).
Proof.
  intros s H. cbn. split; [exact H |].
  destruct (Dict.get nm (data s)) as [l|] eqn:E; [| exact I].
  apply get_In in E. apply (proj1 H _ _ E).
Qed.

Lemma run_method_raises m r e : run_method m r = Err e -> e = ValueError.
Proof.
  destruct m; cbn; unfold Rec.add_phone, Rec.add_birthday, rbind;
    try discriminate.
  - unfold new_Phone. destruct (negb _); [intros [= <-] | discriminate].
    reflexivity.
  - unfold new_Birthday, PyDate.strptime_dmY, PyDate.new.
    destruct (PyDate.match_dmY _) as [|[[[d mo] y] [|c rest]] tl];
      try (intros [= <-]; reflexivity).
    destruct (PyDate.check_date_fields y mo d); [discriminate |].
    intros [= <-]. reflexivity.
Qed.

(** A method of a record keeps the book well formed, and raises nothing
    but [ValueError]. *)
Lemma hoare_call l (m : method) :
  hoare (fun s => book_ok s /\ is_Some (heap s !! l))
    (call l (run_method m)) (fun _ s => book_ok s)
    (fun e s => catchable e /\ book_ok s).
Proof.
  intros s [[H Hnd] [r Hr]]. unfold call, bind, deref. rewrite Hr.
  destruct (run_method m r) as [r'|e] eqn:E; cbn.
  2:{ rewrite (run_method_raises _ _ _ E).
      split; [apply catchable_ValueError | split; assumption]. }
  split; [| exact Hnd].
  intros k l' Hin. cbn in *. destruct (H k l' Hin) as (r0 & Hr0 & Hk).
  destruct (Nat.eq_dec l l') as [<- | Hne].
  - exists r'. rewrite list_lookup_insert_eq by (eapply lookup_lt_Some, Hr).
    split; [reflexivity |]. rewrite (run_method_name _ _ _ E). congruence.
  - exists r0. rewrite list_lookup_insert_ne by exact Hne. auto.
Qed.

(** A record is created and added to the book. *)
Lemma hoare_create nm :
  hoare book_ok
    (bind (alloc (Rec.new nm)) (fun record =>
       bind (AddressBook.add_record record) (fun _ =>
         ret (record, "Contact added."))))
    (fun rm s => book_ok s /\ is_Some (heap s !! fst rm))
    (fun e s => catchable e /\ book_ok s).
Proof.
  intros s [H Hnd]. mrun. rewrite lookup_app_r by lia.
  rewrite Nat.sub_diag. cbn.
  split; [split |].
  - intros k l Hin. cbn in *.
    apply in_set in Hin as [Hin | [-> ->]].
    + destruct (H k l Hin) as (r & Hr & Hk). exists r. split; [| exact Hk].
      rewrite lookup_app_l; [exact Hr | eapply lookup_lt_Some, Hr].
    + exists (Rec.new nm). rewrite lookup_app_r by lia.
      rewrite Nat.sub_diag. auto.
  - cbn. apply set_keys_NoDup, Hnd.
  - cbn. rewrite lookup_app_r by lia. rewrite Nat.sub_diag. cbn. eauto.
Qed.

Lemma answers_add_contact args : answers (add_contact args).
Proof.
  apply hoare_input_error.
  destruct args as [|nm [|phone more]];
    try apply keeps_raise, catchable_ValueError.
  eapply hoare_bind; [apply hoare_find |]. intros found.
  eapply hoare_bind with
    (Q := fun rm s => book_ok s /\ is_Some (heap s !! fst rm)).
  - destruct found as [l|].
    + intros s [H (r & Hr & _)]. cbn. eauto.
    + eapply hoare_conseq; [apply hoare_create | | |]; cbn; tauto.
  - intros rm. eapply hoare_bind with (Q := fun _ s => book_ok s).
    + destruct (truthy phone).
      * apply (hoare_call _ (m_add_phone phone)).
      * intros s [H _]. exact H.
    + intros _. apply keeps_ret.
Qed.

Lemma answers_change_contact args : answers (change_contact args).
Proof.
  apply hoare_input_error.
  destruct args as [|nm [|o [|n [|]]]];
    try apply keeps_raise, catchable_ValueError.
  eapply hoare_bind; [apply hoare_find |]. intros [l|].
  - intros s [H (r & Hr & _)]. unfold bind at 1. unfold deref. rewrite Hr.
    destruct (Rec.find_phone o r);
      [| split; [apply catchable_KeyError | exact H]].
    pose proof (hoare_call l (m_edit_phone o n) s
                  (conj H (ex_intro _ r Hr))) as Hc.
    cbn [run_method] in Hc.
    unfold bind. destruct (call l _ s) as [[u| e |] s1]; auto.
  - intros s [H _]. split; [apply catchable_KeyError | exact H].
Qed.

Lemma answers_show_phone args : answers (show_phone args).
Proof.
  apply hoare_input_error.
  eapply hoare_bind; [apply hoare_find |]. intros [l|].
  - intros s [H (r & Hr & _)]. unfold bind, deref. rewrite Hr. exact H.
  - intros s [H _]. split; [apply catchable_KeyError | exact H].
Qed.

Lemma answers_show_all : answers show_all.
Proof. apply hoare_input_error, keeps_ret. Qed.

Lemma answers_add_birthday args : answers (add_birthday args).
Proof.
  apply hoare_input_error.
  destruct args as [|nm [|t [|]]];
    try apply keeps_raise, catchable_ValueError.
  eapply hoare_bind; [apply hoare_find |]. intros [l|].
  - eapply hoare_bind with (Q := fun _ s => book_ok s).
    + eapply hoare_conseq;
        [apply (hoare_call l (m_add_birthday t)) | | |];
        cbn; auto.
      intros s [H (r & Hr & _)]. eauto.
    + intros _. apply keeps_ret.
  - intros s [H _]. split; [apply catchable_KeyError | exact H].
Qed.

Lemma answers_show_birthday args : answers (show_birthday args).
Proof.
  apply hoare_input_error.
  eapply hoare_bind; [apply hoare_find |]. intros [l|].
  - intros s [H (r & Hr & _)]. unfold bind, deref. rewrite Hr.
    destruct (birthday r); exact H.
  - intros s [H _]. split; [apply catchable_KeyError | exact H].
Qed.

Lemma mapM_deref_total s ls :
  (forall l, In l ls -> is_Some (heap s !! l)) ->
  exists rs, mapM deref ls s = (Return rs, s).
Proof.
  induction ls as [|l ls IH]; intros H; cbn; [eauto |].
  destruct (H l) as [r Hr]; [left; reflexivity |].
  destruct IH as [rs Hrs]; [intros; apply H; right; assumption |].
  exists (r :: rs). unfold bind. unfold deref at 1. rewrite Hr, Hrs.
  reflexivity.
Qed.

(** In a well-formed book every record can be read. *)
Lemma records_total s :
  names_match s -> exists rs, AddressBook.records s = (Return rs, s).
Proof.
  intros H. unfold AddressBook.records, bind, get_data.
  apply mapM_deref_total. intros l Hl. unfold Dict.values in Hl.
  apply in_map_iff in Hl as ([k l'] & <- & Hin).
  destruct (H k l' Hin) as (r & Hr & _). eauto.
Qed.

Lemma keeps_records : keeps AddressBook.records.
Proof.
  intros s H. destruct (records_total s (proj1 H)) as [rs ->]. exact H.
Qed.

(** The loop over the records raises nothing but the [ValueError] of a
    birthday that a year does not have. *)
Lemma upcoming_loop_raises today days rs : forall acc e,
  AddressBook.upcoming_loop today days rs acc = Err e -> e = ValueError.
Proof.
  induction rs as [|r rest IH]; intros acc e; cbn; [discriminate |].
  destruct (birthday r) as [b|]; [| apply IH].
  destruct (AddressBook.birthday_this_year today b) as [bty|e0] eqn:Eb.
  - destruct (AddressBook.in_window today days bty); [| apply IH].
    destruct (DateFacts.adjust_for_weekend_spec bty
                (DateFacts.birthday_this_year_valid _ _ _ Eb))
      as (c & -> & _).
    apply IH.
  - intros [= <-]. revert Eb.
    unfold AddressBook.birthday_this_year, PyDate.replace_year, rbind,
      PyDate.new.
    destruct (PyDate.check_date_fields (PyDate.year today) _ _);
      [| intros [= <-]; reflexivity].
    destruct (PyDate.lt _ today); [| discriminate].
    destruct (PyDate.check_date_fields _ _ _); [discriminate |].
    intros [= <-]. reflexivity.
Qed.

Lemma keeps_get_upcoming_birthdays today days :
  keeps (AddressBook.get_upcoming_birthdays today days).
Proof.
  unfold AddressBook.get_upcoming_birthdays.
  apply keeps_bind; [apply keeps_records |].
  intros rs. destruct (AddressBook.upcoming_loop _ _ _ _) as [out|e] eqn:E;
    [apply keeps_ret |].
  rewrite (upcoming_loop_raises _ _ _ _ _ E).
  apply keeps_raise, catchable_ValueError.
Qed.

Lemma answers_birthdays today args : answers (birthdays today args).
Proof.
  apply hoare_input_error.
  eapply hoare_bind with (Q := fun _ s => book_ok s).
  - apply keeps_get_upcoming_birthdays.
  - intros [|]; intros; apply keeps_ret.
Qed.

Lemma returns_display v :
  hoare book_ok (display v) (fun _ s => book_ok s) (fun _ _ => False).
Proof.
  destruct v as [txt|]; [intros s H; exact H |].
  intros s H. unfold display, AddressBook.str, bind.
  destruct (records_total s (proj1 H)) as [rs ->]. exact H.
Qed.

Lemma returns_respond today command args :
  hoare book_ok (respond today command args) (fun _ s => book_ok s)
    (fun _ _ => False).
Proof.
  unfold respond.
  repeat (destruct (String.eqb command _);
          [first [ intros s H; exact H
                 | eapply hoare_bind; [| intros; apply returns_display]] |]);
    [ apply answers_add_contact | apply answers_change_contact
    | apply answers_show_phone | apply answers_show_all
    | apply answers_add_birthday | apply answers_show_birthday
    | apply answers_birthdays | intros s H; exact H ].
Qed.

(** From a well-formed book, no run of the loop meets a missing object,
    and the book it ends with is well formed again. *)
Lemma main_loop_sound today inputs : forall s,
  book_ok s ->
  snd (fst (main_loop today inputs s)) <> Broken
  /\ book_ok (snd (main_loop today inputs s)).
Proof.
  induction inputs as [|line later IH]; intros s H; cbn.
  - split; [discriminate | exact H].
  - destruct (parse_input line) as [[command args]|e];
      [| split; [discriminate | exact H]].
    destruct (String.eqb command "close" || String.eqb command "exit");
      [split; [discriminate | exact H] |].
    pose proof (returns_respond today command args s H) as Hk.
    destruct (respond today command args s) as [[text| e |] s1];
      [| contradiction | contradiction].
    specialize (IH s1 Hk).
    destruct (main_loop today later s1) as [[evs e] s2]. exact IH.
Qed.

(** ** The dispatch loop *)

Lemma split_blank line : blank line = true -> Text.split line = [].
Proof.
  unfold Text.split. induction line as [|c rest IH]; cbn; [reflexivity |].
  intros H. apply andb_true_iff in H as [Hc Hr]. rewrite Hc. auto.
Qed.

(** C9: on a line that is empty or holds whitespace only, [parse_input]
    raises [ValueError]; nothing catches it, so [main] ends with that
    exception after the welcome, without showing "Invalid command." and
    without reading the lines that follow. *)
Theorem blank_line_crashes (line : string) :
  blank line = true ->
  parse_input line = Err ValueError
  /\ forall today later book,
      main today (line :: later) book
      = ([Shown "Welcome to the assistant bot!"], Crashed ValueError, book).
Proof.
  intros H. assert (Hp : parse_input line = Err ValueError).
  { unfold parse_input. rewrite (split_blank _ H). reflexivity. }
  split; [exact Hp |]. intros. unfold main. cbn. rewrite Hp. reflexivity.
Qed.

Lemma blank_line_crashes_witness :
  parse_input "   " = Err ValueError
  /\ forall today later book,
      main today ("   " :: later) book
      = ([Shown "Welcome to the assistant bot!"], Crashed ValueError, book).
Proof. apply (blank_line_crashes "   "). reflexivity. Defined.

(** A command the loop does not know is answered and the loop goes on. *)
Example unknown_command :
  main (PyDate.mkdate 2026 11 4) ["foo"; "exit"] (empty_book [])
  = ([Shown "Welcome to the assistant bot!"; Shown "Invalid command.";
      Shown "Goodbye!"; Saved (empty_book [])],
     Exited, empty_book []).
Proof. reflexivity. Qed.

(** [add] twice under one name: one record, two phones, and the second
    answer is "Contact updated.". *)
Example add_twice :
  main (PyDate.mkdate 2026 11 4)
    ["add john 1234567890"; "add john 0987654321"; "phone john"]
    (empty_book [])
  = ([Shown "Welcome to the assistant bot!"; Shown "Contact added.";
      Shown "Contact updated."; Shown "1234567890; 0987654321"],
     Crashed EOFError,
     mkStore
       [mkRecord (mkName "john")
          [mkPhone "1234567890"; mkPhone "0987654321"] None]
       [("john", 0%nat)]).
Proof. vm_compute. reflexivity. Qed.

(** A session from start to end. *)
Example session :
  fst (fst (main (PyDate.mkdate 2026 11 4)
              ["add john 1234567890"; "add-birthday john 05-06-2030";
               "phone john"; "show-birthday john"]
              (empty_book [])))
  = [Shown "Welcome to the assistant bot!"; Shown "Contact added.";
     Shown "Birthday added."; Shown "1234567890"; Shown "05-06-2030"].
Proof. vm_compute. reflexivity. Qed.
(** ** More on the dispatch loop *)

Module TokenFacts.

Lemma no_space_app a b :
  no_space a = true -> no_space b = true -> no_space (a ++ b)%string = true.
Proof.
  induction a as [|c a IH]; cbn; [auto |].
  rewrite !andb_true_iff. intros [Hc Ha] Hb. auto.
Qed.

Lemma append_not_empty a c : (a ++ String c EmptyString)%string <> EmptyString.
Proof. destruct a; discriminate. Qed.

Lemma split_from_not_nil cur s :
  cur <> EmptyString -> Text.split_from cur s <> [].
Proof.
  revert cur. induction s as [|c rest IH]; intros cur Hcur; cbn.
  - destruct cur; [contradiction | discriminate].
  - destruct (Text.isspace c).
    + destruct cur; [contradiction | discriminate].
    + apply IH, append_not_empty.
Qed.

Lemma split_nil_blank s : Text.split s = [] -> blank s = true.
Proof.
  unfold Text.split. induction s as [|c rest IH]; cbn; [reflexivity |].
  destruct (Text.isspace c); [exact IH |].
  intros H. exfalso. revert H. apply split_from_not_nil. discriminate.
Qed.

Lemma split_from_tokens s : forall cur,
  no_space cur = true -> Forall token (Text.split_from cur s).
Proof.
  induction s as [|c rest IH]; intros cur Hcur; cbn.
  - destruct cur; constructor; [split; [discriminate | exact Hcur] | constructor].
  - destruct (Text.isspace c) eqn:Hc.
    + destruct cur; [apply IH; reflexivity |].
      constructor; [split; [discriminate | exact Hcur] | apply IH; reflexivity].
    + apply IH, no_space_app; [exact Hcur |]. cbn. rewrite Hc. reflexivity.
Qed.

Lemma isspace_lower_char c : Text.isspace (Text.lower_char c) = Text.isspace c.
Proof. destruct c as [[] [] [] [] [] [] [] []]; reflexivity. Qed.

Lemma lower_char_twice c :
  Text.lower_char (Text.lower_char c) = Text.lower_char c.
Proof. destruct c as [[] [] [] [] [] [] [] []]; reflexivity. Qed.

Lemma lower_twice s : Text.lower (Text.lower s) = Text.lower s.
Proof.
  induction s as [|c s IH]; cbn; [reflexivity |].
  rewrite lower_char_twice, IH. reflexivity.
Qed.

Lemma lower_token s : token s -> token (Text.lower s).
Proof.
  intros [Hne Hns]. split; [destruct s; [contradiction | discriminate] |].
  clear Hne. induction s as [|c s IH]; cbn in *; [reflexivity |].
  apply andb_true_iff in Hns as [Hc Hs].
  rewrite isspace_lower_char, Hc. cbn. auto.
Qed.

Lemma rstrip_no_space s : no_space s = true -> Text.rstrip s = s.
Proof.
  induction s as [|c s IH]; cbn; [reflexivity |].
  rewrite andb_true_iff, negb_true_iff. intros [Hc Hs].
  rewrite (IH Hs), Hc. destruct s; reflexivity.
Qed.

Lemma strip_no_space s : no_space s = true -> Text.strip s = s.
Proof.
  intros H. unfold Text.strip.
  assert (Hl : Text.lstrip s = s).
  { destruct s as [|c s]; [reflexivity |]. cbn in *.
    apply andb_true_iff in H as [Hc _]. apply negb_true_iff in Hc.
    rewrite Hc. reflexivity. }
  rewrite Hl. apply rstrip_no_space, H.
Qed.

Lemma append_empty s : (s ++ EmptyString)%string = s.
Proof. induction s as [|c s IH]; cbn; [reflexivity | f_equal; exact IH]. Qed.

Lemma append_cons a c t :
  ((a ++ String c EmptyString) ++ t)%string = (a ++ String c t)%string.
Proof. induction a as [|x a IH]; cbn; [reflexivity | f_equal; exact IH]. Qed.

Lemma split_from_word t : forall cur rest,
  no_space t = true ->
  Text.split_from cur (t ++ rest)%string
  = Text.split_from (cur ++ t)%string rest.
Proof.
  induction t as [|c t IH]; intros cur rest H; cbn.
  - rewrite append_empty. reflexivity.
  - cbn in H. apply andb_true_iff in H as [Hc Ht]. apply negb_true_iff in Hc.
    rewrite Hc, (IH _ _ Ht), append_cons. reflexivity.
Qed.

Lemma split_join ts :
  Forall token ts -> Text.split (Text.join " " ts) = ts.
Proof.
  unfold Text.split. induction 1 as [|t ts [Hne Hns] Hts IH]; [reflexivity |].
  destruct ts as [|t2 ts].
  - cbn [Text.join]. rewrite <- (append_empty t) at 1.
    rewrite (split_from_word t EmptyString EmptyString Hns). cbn.
    destruct t; [contradiction | reflexivity].
  - cbn [Text.join]. rewrite (split_from_word t EmptyString _ Hns).
    cbn [String.append]. cbn [Text.split_from].
    change (Text.isspace " ") with true. cbn match.
    destruct t; [contradiction |]. f_equal. exact IH.
Qed.

End TokenFacts.

(** X1: a line that is not blank is parsed: the command is the first
    token in lower case, the arguments are the tokens that follow. *)
Theorem parse_input_nonblank (line : string) :
  blank line = false ->
  exists first args,
    Text.split line = first :: args
    /\ parse_input line = Ok (Text.lower first, args).
Proof.
  intros Hb. unfold parse_input.
  destruct (Text.split line) as [|first args] eqn:E.
  - apply TokenFacts.split_nil_blank in E. congruence.
  - exists first, args. split; [reflexivity |].
    pose proof (TokenFacts.split_from_tokens line EmptyString eq_refl) as Ht.
    fold (Text.split line) in Ht. rewrite E in Ht.
    apply Forall_cons in Ht as [[_ Hns] _].
    rewrite (TokenFacts.strip_no_space _ Hns). reflexivity.
Qed.

Lemma parse_input_nonblank_witness :
  exists first args,
    Text.split "  ADD  John 1234567890 " = first :: args
    /\ parse_input "  ADD  John 1234567890 "
       = Ok (Text.lower first, args).
Proof. apply (parse_input_nonblank "  ADD  John 1234567890 "). reflexivity. Defined.

(** X2: what [parse_input] returns are tokens: the command and every
    argument are not empty and hold no whitespace, and the command is in
    lower case. *)
Theorem parse_input_tokens (line command : string) (args : list string) :
  parse_input line = Ok (command, args) ->
  token command /\ Text.lower command = command /\ Forall token args.
Proof.
  unfold parse_input.
  pose proof (TokenFacts.split_from_tokens line EmptyString eq_refl) as Ht.
  fold (Text.split line) in Ht.
  destruct (Text.split line) as [|first rest]; [discriminate |].
  apply Forall_cons in Ht as [Hfirst Hrest].
  intros [= <- <-].
  rewrite (TokenFacts.strip_no_space _ (proj2 Hfirst)).
  split; [apply TokenFacts.lower_token, Hfirst |].
  split; [apply TokenFacts.lower_twice | exact Hrest].
Qed.

Lemma parse_input_tokens_witness :
  token "add" /\ Text.lower "add" = "add"
  /\ Forall token ["John"; "1234567890"].
Proof.
  apply (parse_input_tokens "  ADD  John 1234567890 "). reflexivity.
Defined.

(** X3: a command and arguments written with one space between them are
    read back as they are, the command in lower case. *)
Theorem parse_input_join (command : string) (args : list string) :
  token command -> Forall token args ->
  parse_input (Text.join " " (command :: args))
  = Ok (Text.lower command, args).
Proof.
  intros Hc Ha. unfold parse_input.
  rewrite TokenFacts.split_join by (constructor; assumption).
  rewrite (TokenFacts.strip_no_space _ (proj2 Hc)). reflexivity.
Qed.

Lemma parse_input_join_witness :
  parse_input (Text.join " " ["Change"; "john"; "1234567890"; "0987654321"])
  = Ok (Text.lower "Change", ["john"; "1234567890"; "0987654321"]).
Proof.
  apply (parse_input_join "Change" ["john"; "1234567890"; "0987654321"]).
  - split; [discriminate | reflexivity].
  - repeat constructor; discriminate.
Defined.

(** X6: from a well-formed book every command is answered: the handlers
    raise nothing that [input_error] lets through, and the book stays well
    formed. *)
Theorem respond_answers today command args s :
  book_ok s ->
  exists text s',
    respond today command args s = (Return text, s') /\ book_ok s'.
Proof.
  intros H. pose proof (returns_respond today command args s H) as Hr.
  destruct (respond today command args s) as [[text| e |] s1];
    [eauto | contradiction | contradiction].
Qed.

Lemma respond_answers_witness :
  exists text s',
    respond (PyDate.mkdate 2025 2 25) "birthdays" [] leap_book
    = (Return text, s')
    /\ book_ok s'.
Proof.
  apply (respond_answers (PyDate.mkdate 2025 2 25) "birthdays" [] leap_book).
  apply reachable_book_ok.
  apply (reach_step (mkStore [alice; bob] [("alice", 0%nat)])).
  - apply (reach_step (mkStore [alice; bob] [])); [apply reach_empty |].
    apply (step_add_record _ _ 0%nat). reflexivity.
  - apply (step_add_record _ _ 1%nat). reflexivity.
Defined.

(** X4: from a well-formed book, how [main] ends is decided by the lines
    alone: it leaves on the first [close] or [exit], ends with [ValueError]
    on the first blank line, and with [EOFError] when the lines run out;
    no handler ends it. *)
Theorem main_ending today inputs book :
  book_ok book ->
  snd (fst (main today inputs book)) = expected_ending inputs
  /\ book_ok (snd (main today inputs book)).
Proof.
  intros H. unfold main.
  assert (Hl : snd (fst (main_loop today inputs book)) = expected_ending inputs
               /\ book_ok (snd (main_loop today inputs book))).
  { revert book H. induction inputs as [|line later IH]; intros s H; cbn.
    - auto.
    - destruct (parse_input line) as [[command args]|e]; [| auto].
      unfold is_exit.
      destruct (String.eqb command "close" || String.eqb command "exit");
        [auto |].
      pose proof (returns_respond today command args s H) as Hk.
      destruct (respond today command args s) as [[text| e |] s1];
        [| contradiction | contradiction].
      specialize (IH s1 Hk).
      destruct (main_loop today later s1) as [[evs e] s2]. exact IH. }
  destruct (main_loop today inputs book) as [[evs e] s2]. exact Hl.
Qed.

Lemma main_ending_witness :
  snd (fst (main (PyDate.mkdate 2026 11 4)
              ["add dave 12345"; "phone dave"; "  "; "exit"] carol_book))
  = expected_ending ["add dave 12345"; "phone dave"; "  "; "exit"]
  /\ book_ok (snd (main (PyDate.mkdate 2026 11 4)
                     ["add dave 12345"; "phone dave"; "  "; "exit"]
                     carol_book)).
Proof.
  apply (main_ending (PyDate.mkdate 2026 11 4)
           ["add dave 12345"; "phone dave"; "  "; "exit"] carol_book).
  apply reachable_book_ok.
  apply (reach_step (mkStore [carol] [])); [apply reach_empty |].
  apply (step_add_record _ _ 0%nat). reflexivity.
Defined.

(** X5: the book is saved when [main] is left through [close] or [exit],
    once, after "Goodbye!", and as it is at that moment; a run that ends
    with an exception saves nothing. *)
Theorem main_saves_on_exit today inputs book :
  exists texts,
    match main today inputs book with
    | (evs, Exited, s) =>
        evs = map Shown texts ++ [Saved s] /\ last texts = Some "Goodbye!"
    | (evs, _, _) => evs = map Shown texts
    end.
Proof.
  unfold main.
  assert (Hl : exists texts,
    match main_loop today inputs book with
    | (evs, Exited, s) =>
        evs = map Shown texts ++ [Saved s] /\ last texts = Some "Goodbye!"
    | (evs, _, _) => evs = map Shown texts
    end).
  { revert book. induction inputs as [|line later IH]; intros s; cbn.
    - exists []. reflexivity.
    - destruct (parse_input line) as [[command args]|e];
        [| exists []; reflexivity].
      destruct (String.eqb command "close" || String.eqb command "exit").
      + exists ["Goodbye!"]. split; reflexivity.
      + destruct (respond today command args s) as [[text| e |] s1];
          [| exists []; reflexivity | exists []; reflexivity].
        destruct (IH s1) as [texts Ht].
        destruct (main_loop today later s1) as [[evs e] s2].
        exists (text :: texts). destruct e; cbn.
        * destruct Ht as [-> Hlast]. split; [reflexivity |].
          destruct texts; [discriminate | exact Hlast].
        * rewrite Ht. reflexivity.
        * rewrite Ht. reflexivity. }
  destruct Hl as [texts Ht].
  destruct (main_loop today inputs book) as [[evs e] s2].
  exists ("Welcome to the assistant bot!" :: texts). destruct e; cbn.
  - destruct Ht as [-> Hlast]. split; [reflexivity |].
    destruct texts; [discriminate | exact Hlast].
  - rewrite Ht. reflexivity.
  - rewrite Ht. reflexivity.
Qed.

(** ** Commands that only read *)

Section Pure.
Context {A B : Type}.

Lemma pure_ret (a : A) : pure (ret a).
Proof. intros s. reflexivity. Qed.

Lemma pure_raise (e : exn) : pure (@raise A e).
Proof. intros s. reflexivity. Qed.

Lemma pure_bind (m : M A) (k : A -> M B) :
  pure m -> (forall a, pure (k a)) -> pure (bind m k).
Proof.
  intros Hm Hk s. unfold bind. specialize (Hm s).
  destruct (m s) as [[a| e |] s1]; cbn in *; subst s1; [apply Hk | |];
    reflexivity.
Qed.

End Pure.

Lemma pure_deref l : pure (deref l).
Proof. intros s. unfold deref. destruct (heap s !! l); reflexivity. Qed.

Lemma pure_find nm : pure (AddressBook.find nm).
Proof. intros s. reflexivity. Qed.

Lemma pure_mapM_deref ls : pure (mapM deref ls).
Proof.
  induction ls as [|l ls IH]; cbn; [apply pure_ret |].
  apply pure_bind; [apply pure_deref |]. intros r.
  apply pure_bind; [exact IH |]. intros rs. apply pure_ret.
Qed.

Lemma pure_records : pure AddressBook.records.
Proof.
  unfold AddressBook.records. apply pure_bind; [intros s; reflexivity |].
  intros d. apply pure_mapM_deref.
Qed.

Lemma pure_input_error f : pure f -> pure (input_error f).
Proof.
  intros Hf s. unfold input_error. specialize (Hf s).
  destruct (f s) as [[a| [] |] s1]; exact Hf.
Qed.

Lemma pure_display v : pure (display v).
Proof.
  destruct v as [txt|]; [apply pure_ret |].
  unfold display, AddressBook.str.
  apply pure_bind; [apply pure_records | intros; apply pure_ret].
Qed.

Lemma pure_show_phone args : pure (show_phone args).
Proof.
  apply pure_input_error, pure_bind; [apply pure_find |].
  intros [l|]; [| apply pure_raise].
  apply pure_bind; [apply pure_deref | intros; apply pure_ret].
Qed.

Lemma pure_show_birthday args : pure (show_birthday args).
Proof.
  apply pure_input_error, pure_bind; [apply pure_find |].
  intros [l|]; [| apply pure_raise].
  apply pure_bind; [apply pure_deref |].
  intros r. destruct (birthday r); apply pure_ret.
Qed.

Lemma pure_get_upcoming_birthdays today days :
  pure (AddressBook.get_upcoming_birthdays today days).
Proof.
  unfold AddressBook.get_upcoming_birthdays.
  apply pure_bind; [apply pure_records |].
  intros rs. destruct (AddressBook.upcoming_loop _ _ _ _);
    [apply pure_ret | apply pure_raise].
Qed.

Lemma pure_birthdays today args : pure (birthdays today args).
Proof.
  apply pure_input_error, pure_bind;
    [apply pure_get_upcoming_birthdays |].
  intros [|]; intros; apply pure_ret.
Qed.

(** X7: only [add], [change] and [add-birthday] can change the book or a
    record: after any other command, known or not, the store is as it
    was. *)
Theorem other_commands_read_only today command args s :
  changes_book command = false ->
  snd (respond today command args s) = s.
Proof.
  unfold changes_book. rewrite !orb_false_iff. intros [[Hadd Hch] Hab].
  unfold respond. rewrite Hadd, Hch, Hab. cbv iota.
  destruct (String.eqb command "hello"); [reflexivity |].
  destruct (String.eqb command "phone");
    [apply pure_bind; [apply pure_show_phone | intros; apply pure_display] |].
  destruct (String.eqb command "all");
    [apply pure_bind;
       [apply pure_input_error, pure_ret | intros; apply pure_display] |].
  destruct (String.eqb command "show-birthday");
    [apply pure_bind;
       [apply pure_show_birthday | intros; apply pure_display] |].
  destruct (String.eqb command "birthdays");
    [apply pure_bind; [apply pure_birthdays | intros; apply pure_display] |].
  reflexivity.
Qed.

Lemma other_commands_read_only_witness :
  snd (respond (PyDate.mkdate 2026 11 4) "birthdays" [] carol_book)
  = carol_book.
Proof.
  apply (other_commands_read_only (PyDate.mkdate 2026 11 4) "birthdays" []
           carol_book).
  reflexivity.
Defined.

(** ** More on the handlers *)

Lemma get_app_absent {V} nm (v : V) (d : list (string * V)) :
  ~ In nm (map fst d) -> Dict.get nm (d ++ [(nm, v)]) = Some v.
Proof.
  induction d as [|[k w] d IH]; cbn; intros H.
  - rewrite String.eqb_refl. reflexivity.
  - destruct (String.eqb_spec k nm) as [E|E]; [destruct H; auto |].
    apply IH. tauto.
Qed.

Lemma len_10_truthy phone : Text.len phone = 10 -> truthy phone = true.
Proof. destruct phone; [discriminate | reflexivity]. Qed.

Lemma new_Phone_len_10 phone :
  Text.len phone = 10 -> new_Phone phone = Ok (mkPhone phone).
Proof. intros H. unfold new_Phone. rewrite H. reflexivity. Qed.

Lemma new_Birthday_raises text e : new_Birthday text = Err e -> e = ValueError.
Proof.
  intros H. apply (run_method_raises (m_add_birthday text) (Rec.new "")).
  cbn. unfold Rec.add_birthday. rewrite H. reflexivity.
Qed.

(** [add] under a new name. *)
Lemma add_contact_new s nm phone more :
  absent nm s -> Text.len phone = 10 ->
  add_contact (nm :: phone :: more) s
  = (Return (VStr "Contact added."),
     mkStore (heap s ++ [mkRecord (mkName nm) [mkPhone phone] None])
       (data s ++ [(nm, length (heap s))])).
Proof.
  intros Ha Hlen. pose proof Ha as Hg. apply get_absent in Hg.
  unfold add_contact. mrun. rewrite Hg. mrun.
  rewrite lookup_app_r by lia. rewrite Nat.sub_diag. cbn.
  rewrite (set_absent _ _ _ Ha), (len_10_truthy _ Hlen). mrun.
  rewrite lookup_app_r by lia. rewrite Nat.sub_diag. cbn.
  unfold Rec.add_phone. rewrite (new_Phone_len_10 _ Hlen). cbn.
  rewrite insert_app_r_alt by lia. rewrite Nat.sub_diag. reflexivity.
Qed.

(** [add] under a name the book has. *)
Lemma add_contact_old s nm phone more l r :
  Dict.get nm (data s) = Some l -> heap s !! l = Some r ->
  Text.len phone = 10 ->
  add_contact (nm :: phone :: more) s
  = (Return (VStr "Contact updated."),
     mkStore (<[l := Rec.set_phones (phones r ++ [mkPhone phone]) r]> (heap s))
       (data s)).
Proof.
  intros Hl Hr Hlen. unfold add_contact. mrun. rewrite Hl. mrun.
  rewrite (len_10_truthy _ Hlen). mrun. rewrite Hr. cbn.
  unfold Rec.add_phone. rewrite (new_Phone_len_10 _ Hlen). reflexivity.
Qed.

(** [phone] with the name of a record that has phones. *)
Lemma show_phone_found s nm l r :
  Dict.get nm (data s) = Some l -> heap s !! l = Some r -> phones r <> [] ->
  show_phone [nm] s
  = (Return (VStr (Text.join "; " (map phone_value (phones r)))), s).
Proof.
  intros Hl Hr Hne. unfold show_phone. mrun. rewrite Hl. mrun. rewrite Hr.
  destruct (phones r); [contradiction | reflexivity].
Qed.

(** X8: [add] with a name the book does not have and a phone of ten
    characters answers "Contact added."; the book gets one more record, at
    its end, with that name, that one phone and no birthday, and nothing
    else changes. *)
Theorem add_contact_adds (s : Store) (nm phone : string) (more : list string) :
  absent nm s -> Text.len phone = 10 ->
  add_contact (nm :: phone :: more) s
  = (Return (VStr "Contact added."),
     mkStore (heap s ++ [mkRecord (mkName nm) [mkPhone phone] None])
       (data s ++ [(nm, length (heap s))])).
Proof.
  intros Ha Hlen. pose proof Ha as Hg. apply get_absent in Hg.
  unfold add_contact. mrun. rewrite Hg. mrun.
  rewrite lookup_app_r by lia. rewrite Nat.sub_diag. cbn.
  rewrite (set_absent _ _ _ Ha), (len_10_truthy _ Hlen). mrun.
  rewrite lookup_app_r by lia. rewrite Nat.sub_diag. cbn.
  unfold Rec.add_phone. rewrite (new_Phone_len_10 _ Hlen). cbn.
  rewrite insert_app_r_alt by lia. rewrite Nat.sub_diag. reflexivity.
Qed.

Lemma add_contact_adds_witness :
  add_contact ["dave"; "5550004444"] carol_book
  = (Return (VStr "Contact added."),
     mkStore [carol; mkRecord (mkName "dave") [mkPhone "5550004444"] None]
       [("carol", 0%nat); ("dave", 1%nat)]).
Proof.
  apply (add_contact_adds carol_book "dave" "5550004444" []).
  - intros [H | []]. discriminate H.
  - reflexivity.
Defined.



(** X10: after [add] with a name and a phone of ten characters, [phone]
    with that name shows the phones the record had before, in their order,
    and the new phone last. *)
Theorem add_then_show_phone (s : Store) (nm phone : string) :
  names_match s -> Text.len phone = 10 ->
  exists msg s',
    add_contact [nm; phone] s = (Return (VStr msg), s')
    /\ show_phone [nm] s'
       = (Return (VStr (Text.join "; " (phones_of nm s ++ [phone]))), s').
Proof.
  intros Hinv Hlen. unfold phones_of.
  destruct (Dict.get nm (data s)) as [l|] eqn:Hl.
  - destruct (Hinv nm l (get_In _ _ _ Hl)) as (r & Hr & _). rewrite Hr.
    eexists _, _. split; [apply (add_contact_old _ _ _ _ l r); assumption |].
    rewrite (show_phone_found _ nm l
               (Rec.set_phones (phones r ++ [mkPhone phone]) r)).
    + cbn [phones Rec.set_phones]. rewrite map_app. reflexivity.
    + exact Hl.
    + cbn [heap]. apply list_lookup_insert_eq. eapply lookup_lt_Some, Hr.
    + cbn. destruct (phones r); discriminate.
  - pose proof (proj1 (get_absent _ _) Hl) as Ha.
    eexists _, _. split; [apply add_contact_new; assumption |].
    rewrite (show_phone_found _ nm (length (heap s))
               (mkRecord (mkName nm) [mkPhone phone] None)).
    + reflexivity.
    + cbn [data]. apply get_app_absent, Ha.
    + cbn [heap]. rewrite lookup_app_r by lia. rewrite Nat.sub_diag.
      reflexivity.
    + discriminate.
Qed.

Lemma add_then_show_phone_witness :
  exists msg s',
    add_contact ["carol"; "5550004444"] carol_book = (Return (VStr msg), s')
    /\ show_phone ["carol"] s'
       = (Return
            (VStr (Text.join "; "
                     (phones_of "carol" carol_book ++ ["5550004444"]))),
          s').
Proof.
  apply (add_then_show_phone carol_book "carol" "5550004444").
  - intros k l [[= <- <-] | []]. exists carol. split; reflexivity.
  - reflexivity.
Defined.

(** X11: [add-birthday] with the name of a record and a text [Birthday]
    accepts answers "Birthday added." and sets the birthday of that record
    only, in place of the one it had; [show-birthday] then shows the date
    as [strftime("%d-%m-%Y")] writes it. *)
Theorem add_birthday_then_show (s : Store) (nm text : string) l r b :
  Dict.get nm (data s) = Some l -> heap s !! l = Some r ->
  new_Birthday text = Ok b ->
  let s' := mkStore (<[l := Rec.set_birthday (Some b) r]> (heap s)) (data s) in
  add_birthday [nm; text] s = (Return (VStr "Birthday added."), s')
  /\ show_birthday [nm] s' = (Return (VStr (to_str b)), s').
Proof.
  intros Hl Hr Hb s'. split.
  - unfold add_birthday. mrun. rewrite Hl. mrun. rewrite Hr. cbn.
    unfold Rec.add_birthday. rewrite Hb. reflexivity.
  - unfold show_birthday. mrun. subst s'. cbn. rewrite Hl. mrun.
    rewrite list_lookup_insert_eq by (eapply lookup_lt_Some, Hr).
    reflexivity.
Qed.

Lemma add_birthday_then_show_witness :
  add_birthday ["carol"; "1-2-2001"] carol_book
  = (Return (VStr "Birthday added."),
     mkStore
       [Rec.set_birthday (Some (mkBirthday (PyDate.mkdate 2001 2 1))) carol]
       [("carol", 0%nat)])
  /\ show_birthday ["carol"]
       (mkStore
          [Rec.set_birthday (Some (mkBirthday (PyDate.mkdate 2001 2 1))) carol]
          [("carol", 0%nat)])
     = (Return (VStr "01-02-2001"),
        mkStore
          [Rec.set_birthday (Some (mkBirthday (PyDate.mkdate 2001 2 1))) carol]
          [("carol", 0%nat)]).
Proof.
  apply (add_birthday_then_show carol_book "carol" "1-2-2001" 0%nat carol
           (mkBirthday (PyDate.mkdate 2001 2 1))); reflexivity.
Defined.

(** X12: [add-birthday] that does not succeed changes nothing: with other
    than two arguments or with a text [Birthday] refuses it answers
    "Incorrect value.", with a name the book does not have "Name not
    found.". *)
Theorem add_birthday_refused (s : Store) (args : list string) :
  (length args <> 2%nat ->
   add_birthday args s = (Return (VStr "Incorrect value."), s))
  /\ (forall nm text,
        args = [nm; text] -> absent nm s ->
        add_birthday args s = (Return (VStr "Name not found."), s))
  /\ (forall nm text l r e,
        args = [nm; text] ->
        Dict.get nm (data s) = Some l -> heap s !! l = Some r ->
        new_Birthday text = Err e ->
        add_birthday args s = (Return (VStr "Incorrect value."), s)).
Proof.
  split; [| split].
  - intros H. destruct args as [|a [|b [|c rest]]]; try reflexivity.
    contradiction H. reflexivity.
  - intros nm text -> Ha. apply get_absent in Ha.
    unfold add_birthday. mrun. rewrite Ha. reflexivity.
  - intros nm text l r e -> Hl Hr He.
    rewrite (new_Birthday_raises _ _ He) in He.
    unfold add_birthday. mrun. rewrite Hl. mrun. rewrite Hr. cbn.
    unfold Rec.add_birthday. rewrite He. reflexivity.
Qed.

Lemma add_birthday_refused_witness :
  add_birthday ["carol"] carol_book
  = (Return (VStr "Incorrect value."), carol_book)
  /\ add_birthday ["dave"; "01-02-2001"] carol_book
     = (Return (VStr "Name not found."), carol_book)
  /\ add_birthday ["carol"; "31-02-2001"] carol_book
     = (Return (VStr "Incorrect value."), carol_book).
Proof.
  split; [| split].
  - apply (add_birthday_refused carol_book ["carol"]). discriminate.
  - apply (proj1 (proj2 (add_birthday_refused carol_book
                           ["dave"; "01-02-2001"])) "dave" "01-02-2001").
    + reflexivity.
    + intros [H | []]. discriminate H.
  - apply (proj2 (proj2 (add_birthday_refused carol_book
                           ["carol"; "31-02-2001"]))
             "carol" "31-02-2001" 0%nat carol ValueError);
      reflexivity.
Defined.

(** ** More on records and on the book *)

Lemma set_phones_same r : Rec.set_phones (phones r) r = r.
Proof. destruct r. reflexivity. Qed.

Lemma remove_first_absent v ps : no_phone v ps -> Rec.remove_first v ps = ps.
Proof.
  unfold no_phone. induction ps as [|p ps IH]; cbn; intros H; [reflexivity |].
  destruct (String.eqb_spec (phone_value p) v) as [E|E].
  - destruct (H p); auto.
  - f_equal. apply IH. intros q Hq. apply H. auto.
Qed.

Lemma remove_first_at v ps : forall i,
  first_index v ps i ->
  Rec.remove_first v ps = take i ps ++ drop (S i) ps.
Proof.
  induction ps as [|p ps IH]; intros i [(q & Hq & Hv) Hmin].
  - destruct i; discriminate.
  - cbn. destruct (String.eqb_spec (phone_value p) v) as [E|E].
    + destruct i as [|i]; [reflexivity |].
      destruct (Hmin 0%nat p); [lia | reflexivity | exact E].
    + destruct i as [|i].
      * cbn in Hq. injection Hq as ->. contradiction.
      * cbn. f_equal. apply IH. split; [exists q; auto |].
        intros j q' Hj Hq'. apply (Hmin (S j) q'); [lia | exact Hq'].
Qed.

Lemma remove_first_app v ps qs :
  ~ no_phone v ps ->
  Rec.remove_first v (ps ++ qs) = Rec.remove_first v ps ++ qs.
Proof.
  unfold no_phone. induction ps as [|p ps IH]; cbn; intros H.
  - destruct H. intros p [].
  - destruct (String.eqb_spec (phone_value p) v) as [E|E]; [reflexivity |].
    cbn. f_equal. apply IH. intros Hno. apply H.
    intros q [<- | Hq]; auto.
Qed.

Lemma remove_first_last v ps :
  no_phone v ps -> Rec.remove_first v (ps ++ [mkPhone v]) = ps.
Proof.
  unfold no_phone. induction ps as [|p ps IH]; cbn; intros H.
  - rewrite String.eqb_refl. reflexivity.
  - destruct (String.eqb_spec (phone_value p) v) as [E|E].
    + destruct (H p); auto.
    + f_equal. apply IH. intros q Hq. apply H. auto.
Qed.

(** X13: [remove_phone] takes the first phone of the given value out of
    the list and leaves the others in their order; without such a phone it
    changes nothing.  Name and birthday are never touched. *)
Theorem remove_phone_spec (v : string) (r : RecordObj) :
  name (Rec.remove_phone v r) = name r
  /\ birthday (Rec.remove_phone v r) = birthday r
  /\ (no_phone v (phones r) -> Rec.remove_phone v r = r)
  /\ (forall i, first_index v (phones r) i ->
        phones (Rec.remove_phone v r)
        = take i (phones r) ++ drop (S i) (phones r)).
Proof.
  split; [reflexivity | split; [reflexivity | split]].
  - intros H. unfold Rec.remove_phone.
    rewrite (remove_first_absent _ _ H). apply set_phones_same.
  - intros i Hi. cbn. apply remove_first_at, Hi.
Qed.

Lemma remove_phone_spec_witness :
  phones (Rec.remove_phone "5550002222" carol) = [mkPhone "5550001111"]
  /\ Rec.remove_phone "5550009999" carol = carol.
Proof.
  destruct (remove_phone_spec "5550002222" carol) as (_ & _ & _ & H).
  destruct (remove_phone_spec "5550009999" carol) as (_ & _ & H0 & _).
  split.
  - apply (H 1%nat). split; [exists (mkPhone "5550002222"); split; reflexivity |].
    intros j q Hj Hq. assert (j = 0%nat) as -> by lia.
    injection Hq as <-. cbn. discriminate.
  - apply H0. intros p [<- | [<- | []]]; cbn; discriminate.
Defined.

(** X14: a phone added to a record that did not have it is taken out
    again by [remove_phone], and the record is as before; when the record
    had the phone already, it is the older one that goes and the added one
    stays at the end. *)
Theorem add_then_remove_phone (v : string) (r r' : RecordObj) :
  Rec.add_phone v r = Ok r' ->
  (no_phone v (phones r) -> Rec.remove_phone v r' = r)
  /\ (~ no_phone v (phones r) ->
      phones (Rec.remove_phone v r')
      = phones (Rec.remove_phone v r) ++ [mkPhone v]).
Proof.
  unfold Rec.add_phone, rbind, new_Phone.
  destruct (negb (Text.len v =? 10)); [discriminate |]. intros [= <-].
  split; intros H; unfold Rec.remove_phone, Rec.set_phones; cbn.
  - rewrite (remove_first_last _ _ H). destruct r. reflexivity.
  - apply remove_first_app, H.
Qed.

Lemma add_then_remove_phone_witness :
  Rec.remove_phone "5550003333"
    (Rec.set_phones (phones carol ++ [mkPhone "5550003333"]) carol)
  = carol.
Proof.
  apply (add_then_remove_phone "5550003333" carol
           (Rec.set_phones (phones carol ++ [mkPhone "5550003333"]) carol)).
  - reflexivity.
  - intros p [<- | [<- | []]]; cbn; discriminate.
Defined.

(** X15: [find_phone] returns the first phone of the record with the given
    value, and nothing exactly when the record has no phone of that
    value. *)
Theorem find_phone_spec (v : string) (r : RecordObj) :
  (Rec.find_phone v r = None <-> no_phone v (phones r))
  /\ (forall p, Rec.find_phone v r = Some p <->
                exists i, first_index v (phones r) i
                          /\ phones r !! i = Some p).
Proof.
  split; [apply find_first_None |].
  unfold Rec.find_phone. generalize (phones r). clear r.
  intros ps.
  induction ps as [|q ps IH]; intros p; cbn.
  - split; [discriminate | intros (i & _ & Hi); destruct i; discriminate].
  - destruct (String.eqb_spec (phone_value q) v) as [E|E].
    + split.
      * intros [= <-]. exists 0%nat. split; [| reflexivity].
        split; [exists q; auto | intros j q' Hj; lia].
      * intros ([|i] & [_ Hmin] & Hi); [cbn in Hi; exact Hi |].
        destruct (Hmin 0%nat q); [lia | reflexivity | exact E].
    + rewrite IH. split.
      * intros (i & [(q' & Hq' & Hv) Hmin] & Hi). exists (S i).
        split; [| exact Hi]. split; [exists q'; auto |].
        intros [|j] q'' Hj Hq''; [injection Hq'' as <-; exact E |].
        apply (Hmin j q''); [lia | exact Hq''].
      * intros ([|i] & [(q' & Hq' & Hv) Hmin] & Hi).
        { cbn in Hq'. injection Hq' as ->. contradiction. }
        exists i. split; [| exact Hi]. split; [exists q'; auto |].
        intros j q'' Hj Hq''. apply (Hmin (S j) q''); [lia | exact Hq''].
Qed.

Lemma get_set_eq {V} k (v : V) d : Dict.get k (Dict.set k v d) = Some v.
Proof.
  induction d as [|[k0 v0] d IH]; cbn.
  - rewrite String.eqb_refl. reflexivity.
  - destruct (String.eqb_spec k0 k) as [E|E]; cbn.
    + subst. rewrite String.eqb_refl. reflexivity.
    + apply String.eqb_neq in E. rewrite E. exact IH.
Qed.

Lemma get_set_ne {V} k k' (v : V) d :
  k' <> k -> Dict.get k' (Dict.set k v d) = Dict.get k' d.
Proof.
  intros Hne. induction d as [|[k0 v0] d IH]; cbn.
  - destruct (String.eqb_spec k k'); [congruence | reflexivity].
  - destruct (String.eqb_spec k0 k) as [E|E]; cbn.
    + subst. destruct (String.eqb_spec k k'); [congruence | reflexivity].
    + destruct (String.eqb_spec k0 k'); [reflexivity | exact IH].
Qed.

Lemma get_del_eq {V} k (d : list (string * V)) :
  NoDup (map fst d) -> Dict.get k (Dict.del k d) = None.
Proof.
  induction d as [|[k0 v0] d IH]; cbn; [reflexivity |].
  intros H. apply NoDup_cons in H as [Hk0 H].
  destruct (String.eqb_spec k0 k) as [E|E]; cbn.
  - subst. apply get_absent. intros Hin. apply Hk0, list_elem_of_In, Hin.
  - apply String.eqb_neq in E. rewrite E. auto.
Qed.

Lemma get_del_ne {V} k k' (d : list (string * V)) :
  k' <> k -> Dict.get k' (Dict.del k d) = Dict.get k' d.
Proof.
  intros Hne. induction d as [|[k0 v0] d IH]; cbn; [reflexivity |].
  destruct (String.eqb_spec k0 k) as [E|E]; cbn.
  - subst. destruct (String.eqb_spec k k'); [congruence | reflexivity].
  - destruct (String.eqb_spec k0 k'); [reflexivity | exact IH].
Qed.

Lemma del_absent {V} k (d : list (string * V)) :
  ~ In k (map fst d) -> Dict.del k d = d.
Proof.
  induction d as [|[k0 v0] d IH]; cbn; intros H; [reflexivity |].
  destruct (String.eqb_spec k0 k) as [E|E]; [destruct H; auto |].
  f_equal. apply IH. tauto.
Qed.

(** X16: after [add_record] the record is found under its own name; every
    other name is found as before, and no record changes.  A new name goes
    to the end of the book. *)
Theorem add_record_then_find (s : Store) (l : loc) (r : RecordObj) :
  heap s !! l = Some r ->
  exists s',
    AddressBook.add_record l s = (Return tt, s')
    /\ heap s' = heap s
    /\ AddressBook.find (name_value (name r)) s' = (Return (Some l), s')
    /\ (forall nm, nm <> name_value (name r) ->
          AddressBook.find nm s' = (Return (Dict.get nm (data s)), s'))
    /\ (absent (name_value (name r)) s ->
        data s' = data s ++ [(name_value (name r), l)]).
Proof.
  intros Hr. eexists. split.
  { unfold AddressBook.add_record. mrun. rewrite Hr. reflexivity. }
  split; [reflexivity |]. split; [| split].
  - unfold AddressBook.find. mrun. rewrite get_set_eq. reflexivity.
  - intros nm Hne. unfold AddressBook.find. mrun.
    rewrite (get_set_ne _ _ _ _ Hne). reflexivity.
  - intros Ha. cbn. apply set_absent, Ha.
Qed.

Lemma add_record_then_find_witness :
  exists s',
    AddressBook.add_record 1%nat (mkStore [carol; alice] [("carol", 0%nat)])
    = (Return tt, s')
    /\ heap s' = [carol; alice]
    /\ AddressBook.find "alice" s' = (Return (Some 1%nat), s')
    /\ (forall nm, nm <> "alice" ->
          AddressBook.find nm s'
          = (Return (Dict.get nm [("carol", 0%nat)]), s'))
    /\ (absent "alice" (mkStore [carol; alice] [("carol", 0%nat)]) ->
        data s' = [("carol", 0%nat)] ++ [("alice", 1%nat)]).
Proof.
  apply (add_record_then_find (mkStore [carol; alice] [("carol", 0%nat)])
           1%nat alice).
  reflexivity.
Defined.

(** X17: after [delete] the name is not found any more, every other name
    is found as before, and no record changes; for a name the book does
    not have, [delete] raises nothing and changes nothing. *)
Theorem delete_then_find (s : Store) (nm : string) :
  NoDup (map fst (data s)) ->
  exists s',
    AddressBook.delete nm s = (Return tt, s')
    /\ heap s' = heap s
    /\ AddressBook.find nm s' = (Return None, s')
    /\ (forall k, k <> nm ->
          AddressBook.find k s' = (Return (Dict.get k (data s)), s'))
    /\ (absent nm s -> s' = s).
Proof.
  intros Hnd. unfold AddressBook.delete. mrun. unfold Dict.mem.
  destruct (Dict.get nm (data s)) as [l|] eqn:E; mrun.
  - eexists. split; [reflexivity |]. split; [reflexivity |].
    split; [| split].
    + mrun. rewrite (get_del_eq _ _ Hnd). reflexivity.
    + intros k Hk. mrun. rewrite (get_del_ne _ _ _ Hk). reflexivity.
    + intros Ha. apply get_absent in Ha. congruence.
  - exists s. split; [reflexivity |]. split; [reflexivity |].
    split; [| split].
    + mrun. rewrite E. reflexivity.
    + intros k Hk. reflexivity.
    + reflexivity.
Qed.

Lemma delete_then_find_witness :
  exists s',
    AddressBook.delete "alice" leap_book = (Return tt, s')
    /\ heap s' = heap leap_book
    /\ AddressBook.find "alice" s' = (Return None, s')
    /\ (forall k, k <> "alice" ->
          AddressBook.find k s' = (Return (Dict.get k (data leap_book)), s'))
    /\ (absent "alice" leap_book -> s' = leap_book).
Proof.
  apply (delete_then_find leap_book "alice").
  cbn. repeat constructor; intros H; apply list_elem_of_In in H; cbn in H;
    intuition discriminate.
Defined.

(** ** More on dates and upcoming birthdays *)

Module OrderFacts.
Import PyDate.

Lemma days_before_next_year y :
  days_before_year (y + 1)
  = days_before_year y + (if is_leap y then 366 else 365).
Proof.
  unfold days_before_year. cbv zeta.
  destruct (is_leap y) eqn:E.
  - apply DateFacts.is_leap_spec in E. Z.div_mod_to_equations. lia.
  - assert (H : ~ (y mod 4 = 0 /\ (y mod 100 <> 0 \/ y mod 400 = 0))).
    { rewrite <- DateFacts.is_leap_spec. congruence. }
    Z.div_mod_to_equations. lia.
Qed.

Lemma days_before_year_mono y1 y2 :
  y1 <= y2 -> days_before_year y1 <= days_before_year y2.
Proof.
  intros H. unfold days_before_year. cbv zeta. Z.div_mod_to_equations. lia.
Qed.

Lemma months_in_order y m1 m2 :
  1 <= m1 -> m1 < m2 -> m2 <= 12 ->
  days_before_month y m1 + days_in_month y m1 <= days_before_month y m2.
Proof.
  intros H1 H12 H2. unfold days_before_month, days_in_month.
  assert (Hc1 : m1 = 1 \/ m1 = 2 \/ m1 = 3 \/ m1 = 4 \/ m1 = 5 \/ m1 = 6
                \/ m1 = 7 \/ m1 = 8 \/ m1 = 9 \/ m1 = 10 \/ m1 = 11) by lia.
  assert (Hc2 : m2 = 2 \/ m2 = 3 \/ m2 = 4 \/ m2 = 5 \/ m2 = 6
                \/ m2 = 7 \/ m2 = 8 \/ m2 = 9 \/ m2 = 10 \/ m2 = 11
                \/ m2 = 12) by lia.
  destruct (is_leap y);
    repeat (destruct Hc1 as [-> | Hc1]); subst;
    repeat (destruct Hc2 as [-> | Hc2]); subst; cbn; lia.
Qed.

(** The order of dates is the order of their ordinals. *)
Lemma lt_toordinal a b :
  valid a -> valid b -> lt a b = true -> toordinal a < toordinal b.
Proof.
  unfold valid. rewrite !DateFacts.check_date_fields_spec.
  intros (Hya & Hma & Hda) (Hyb & Hmb & Hdb).
  unfold lt, toordinal, ymd2ord.
  rewrite !orb_true_iff, !andb_true_iff, !orb_true_iff, !andb_true_iff,
    !Z.ltb_lt, !Z.eqb_eq.
  pose proof (DateFacts.year_length (year a) (month a) Hma) as [Ha0 Ha1].
  pose proof (DateFacts.year_length (year b) (month b) Hmb) as [Hb0 Hb1].
  intros [Hy | [Hy [Hm | [Hm Hd]]]].
  - pose proof (days_before_next_year (year a)) as Hn.
    pose proof (days_before_year_mono (year a + 1) (year b)) as Hmono.
    lia.
  - rewrite Hy in *.
    pose proof (months_in_order (year b) (month a) (month b)). lia.
  - rewrite Hy, Hm in *. lia.
Qed.

Lemma not_lt_toordinal a b :
  valid a -> valid b -> lt a b = false -> toordinal b <= toordinal a.
Proof.
  intros Ha Hb Hlt.
  destruct (lt b a) eqn:Hba.
  - pose proof (lt_toordinal b a Hb Ha Hba). lia.
  - assert (year a = year b /\ month a = month b /\ day a = day b) as (Hy & Hm & Hd).
    { unfold lt in *.
      rewrite !orb_false_iff, !andb_false_iff, !orb_false_iff,
        !andb_false_iff, !Z.ltb_ge, !Z.eqb_neq in *. lia. }
    unfold toordinal. rewrite Hy, Hm, Hd. lia.
Qed.

End OrderFacts.

(** A weekend day is moved by one or two days, to a working day. *)
Lemma adjust_for_weekend_weekday t :
  PyDate.valid t ->
  exists c, AddressBook.adjust_for_weekend t = Ok c
    /\ PyDate.valid c /\ PyDate.weekday c <= 4
    /\ 0 <= PyDate.sub_days c t <= 2.
Proof.
  intros Hv. destruct (DateFacts.adjust_for_weekend_spec t Hv) as (c & Hc & Hr).
  exists c. split; [exact Hc |]. unfold reported_on in Hr.
  destruct (5 <=? PyDate.weekday t) eqn:Hwe.
  - destruct Hr as (Hvc & Hmon & Hlt & _).
    split; [exact Hvc |]. split; [lia |].
    revert Hc. unfold AddressBook.adjust_for_weekend. rewrite Hwe.
    unfold AddressBook.find_next_weekday, PyDate.add_days.
    apply Z.leb_le in Hwe. pose proof (DateFacts.weekday_range t).
    replace (0 - PyDate.weekday t <=? 0) with true
      by (symmetry; apply Z.leb_le; lia).
    destruct (_ && _) eqn:Hrange; [| discriminate].
    intros [= <-]. apply andb_true_iff in Hrange as [H0 H1].
    apply Z.ltb_lt in H0. apply Z.leb_le in H1.
    unfold PyDate.sub_days.
    rewrite DateFacts.toordinal_fromordinal by lia. lia.
  - subst c. apply Z.leb_gt in Hwe. split; [exact Hv |].
    unfold PyDate.sub_days. lia.
Qed.

(** X18: the date [find_next_weekday] returns falls on the weekday asked
    for and lies one to seven days after the start, seven when the start
    is such a day itself; it raises [OverflowError], and only that, when
    the calendar ends before. *)
Theorem find_next_weekday_spec (start : PyDate.date) (wd : Z) :
  PyDate.valid start -> 0 <= wd <= 6 ->
  (forall r, AddressBook.find_next_weekday start wd = Ok r ->
     PyDate.valid r /\ PyDate.weekday r = wd
     /\ 1 <= PyDate.sub_days r start <= 7
     /\ (PyDate.weekday start = wd -> PyDate.sub_days r start = 7))
  /\ (forall e, AddressBook.find_next_weekday start wd = Err e ->
        e = OverflowError
        /\ PyDate.MAXORDINAL < PyDate.toordinal start + 7).
Proof.
  intros Hv Hwd. pose proof (DateFacts.toordinal_bounds start Hv) as Hb.
  pose proof (DateFacts.weekday_range start) as Hr.
  unfold AddressBook.find_next_weekday, PyDate.add_days.
  set (d := if wd - PyDate.weekday start <=? 0
            then wd - PyDate.weekday start + 7
            else wd - PyDate.weekday start).
  assert (Hd : 1 <= d <= 7
               /\ (PyDate.toordinal start + d + 6) mod 7 = wd
               /\ (PyDate.weekday start = wd -> d = 7)).
  { subst d. unfold PyDate.weekday in *.
    destruct (Z.leb_spec (wd - (PyDate.toordinal start + 6) mod 7) 0);
      Z.div_mod_to_equations; lia. }
  destruct Hd as (Hd & Hmod & Hsame).
  destruct ((0 <? PyDate.toordinal start + d)
            && (PyDate.toordinal start + d <=? PyDate.MAXORDINAL)) eqn:Hrange.
  - apply andb_true_iff in Hrange as [H0 H1].
    apply Z.ltb_lt in H0. apply Z.leb_le in H1.
    split; [| discriminate]. intros r [= <-].
    split; [apply DateFacts.fromordinal_valid; lia |].
    unfold PyDate.weekday, PyDate.sub_days.
    rewrite DateFacts.toordinal_fromordinal by lia.
    split; [exact Hmod |]. split; [lia |].
    intros Hw. rewrite (Hsame Hw). lia.
  - split; [discriminate |]. intros e [= <-]. split; [reflexivity |].
    apply andb_false_iff in Hrange as [H0 | H1].
    + apply Z.ltb_ge in H0. lia.
    + apply Z.leb_gt in H1. lia.
Qed.

Lemma find_next_weekday_spec_witness :
  PyDate.valid (PyDate.mkdate 2026 11 9)
  /\ PyDate.weekday (PyDate.mkdate 2026 11 9) = 0
  /\ 1 <= PyDate.sub_days (PyDate.mkdate 2026 11 9) (PyDate.mkdate 2026 11 2)
     <= 7
  /\ (PyDate.weekday (PyDate.mkdate 2026 11 2) = 0 ->
      PyDate.sub_days (PyDate.mkdate 2026 11 9) (PyDate.mkdate 2026 11 2) = 7).
Proof.
  apply (proj1 (find_next_weekday_spec (PyDate.mkdate 2026 11 2) 0
                  eq_refl ltac:(lia))).
  reflexivity.
Defined.

Lemma upcoming_loop_weekdays today days rs : forall acc out,
  AddressBook.upcoming_loop today days rs acc = Ok out ->
  Forall (fun e => exists c,
            entry_birthday e = PyDate.strftime_Ymd c
            /\ PyDate.valid c /\ PyDate.weekday c <= 4
            /\ 0 <= PyDate.sub_days c today <= days + 2) acc ->
  Forall (fun e => exists c,
            entry_birthday e = PyDate.strftime_Ymd c
            /\ PyDate.valid c /\ PyDate.weekday c <= 4
            /\ 0 <= PyDate.sub_days c today <= days + 2) out.
Proof.
  induction rs as [|r rest IH]; intros acc out H Hacc; cbn in H.
  - injection H as <-. exact Hacc.
  - destruct (birthday r) as [b|]; [| exact (IH _ _ H Hacc)].
    destruct (AddressBook.birthday_this_year today b) as [bty|] eqn:Eb;
      [| discriminate].
    destruct (AddressBook.in_window today days bty) eqn:Ew;
      [| exact (IH _ _ H Hacc)].
    destruct (adjust_for_weekend_weekday bty
                (DateFacts.birthday_this_year_valid _ _ _ Eb))
      as (c & Hc & Hvc & Hwc & Hnear).
    rewrite Hc in H. apply (IH _ _ H).
    apply Forall_app. split; [exact Hacc |].
    constructor; [| constructor].
    exists c. cbn. split; [reflexivity |]. split; [exact Hvc |].
    split; [exact Hwc |].
    unfold AddressBook.in_window in Ew.
    apply andb_true_iff in Ew as [E0 E1].
    apply Z.leb_le in E0. apply Z.leb_le in E1.
    unfold PyDate.sub_days in *. lia.
Qed.

(** X19: every date [get_upcoming_birthdays] returns is a date of the
    calendar that falls on Monday to Friday, is not before today and is at
    most [days + 2] days ahead. *)
Theorem upcoming_entries_weekdays today days s out s' :
  AddressBook.get_upcoming_birthdays today days s = (Return out, s') ->
  Forall (fun e => exists c,
            entry_birthday e = PyDate.strftime_Ymd c
            /\ PyDate.valid c /\ PyDate.weekday c <= 4
            /\ 0 <= PyDate.sub_days c today <= days + 2) out.
Proof.
  unfold AddressBook.get_upcoming_birthdays. intros H.
  apply bind_Return in H as (rs & s1 & H1 & H).
  destruct (AddressBook.upcoming_loop today days rs []) as [l|e] eqn:E;
    cbn in H; [| discriminate].
  injection H as <- _.
  apply (upcoming_loop_weekdays _ _ _ _ _ E). constructor.
Qed.

Lemma upcoming_entries_weekdays_witness :
  Forall (fun e => exists c,
            entry_birthday e = PyDate.strftime_Ymd c
            /\ PyDate.valid c /\ PyDate.weekday c <= 4
            /\ 0 <= PyDate.sub_days c (PyDate.mkdate 2026 11 4) <= 7 + 2)
    [mkEntry "carol" "2026.11.09"].
Proof.
  apply (upcoming_entries_weekdays (PyDate.mkdate 2026 11 4) 7 carol_book
           [mkEntry "carol" "2026.11.09"] carol_book).
  vm_compute. reflexivity.
Defined.

(** X20: the birthday as moved into this or the next year is never before
    today and less than 367 days ahead, so the lower bound of the window
    never turns a record away: a record is selected exactly when its moved
    birthday is at most [days] days ahead. *)
Theorem birthday_this_year_not_before today b bty days :
  PyDate.valid today ->
  AddressBook.birthday_this_year today b = Ok bty ->
  0 <= PyDate.sub_days bty today <= 366
  /\ AddressBook.in_window today days bty
     = (PyDate.sub_days bty today <=? days).
Proof.
  intros Ht Hb.
  assert (H0 : 0 <= PyDate.sub_days bty today <= 366).
  { revert Hb.
    unfold AddressBook.birthday_this_year, PyDate.replace_year, rbind.
    destruct (PyDate.new (PyDate.year today) _ _) as [t1|] eqn:E1;
      [| discriminate].
    apply DateFacts.new_valid in E1 as [Hv1 ->].
    destruct (PyDate.lt _ today) eqn:Hlt.
    - cbn [PyDate.month PyDate.day]. intros E2.
      apply DateFacts.new_valid in E2 as [Hv2 ->].
      pose proof (OrderFacts.lt_toordinal _ _ Hv1 Ht Hlt) as Hbefore.
      assert (Hafter : PyDate.toordinal today
                       < PyDate.toordinal
                           (PyDate.mkdate (PyDate.year today + 1)
                              (PyDate.month (birthday_value b))
                              (PyDate.day (birthday_value b)))).
      { apply OrderFacts.lt_toordinal; [exact Ht | exact Hv2 |].
        unfold PyDate.lt. cbn.
        replace (PyDate.year today <? PyDate.year today + 1) with true
          by (symmetry; apply Z.ltb_lt; lia).
        reflexivity. }
      unfold PyDate.sub_days. split; [lia |].
      revert Hbefore. unfold PyDate.toordinal, PyDate.ymd2ord. cbn.
      rewrite OrderFacts.days_before_next_year.
      unfold PyDate.valid in Hv1, Hv2. cbn in Hv1, Hv2.
      apply DateFacts.check_date_fields_spec in Hv1 as (_ & Hm & _).
      unfold PyDate.days_before_month.
      destruct (PyDate.is_leap (PyDate.year today));
        destruct (PyDate.is_leap (PyDate.year today + 1));
        destruct (2 <? PyDate.month (birthday_value b)); cbn; lia.
    - intros [= <-].
      pose proof (OrderFacts.not_lt_toordinal _ _ Hv1 Ht Hlt) as Hge.
      unfold PyDate.sub_days. split; [lia |].
      pose proof (DateFacts.toordinal_bounds _ Ht) as Hbt.
      revert Hge. unfold PyDate.toordinal, PyDate.ymd2ord. cbn.
      unfold PyDate.valid in Hv1, Ht. cbn in Hv1.
      apply DateFacts.check_date_fields_spec in Hv1 as (_ & Hm & Hd).
      apply DateFacts.check_date_fields_spec in Ht as (_ & Hmt & Hdt).
      pose proof (DateFacts.year_length (PyDate.year today) _ Hm) as [Ha Hb'].
      pose proof (DateFacts.year_length (PyDate.year today) _ Hmt) as [Hc Hd'].
      destruct (PyDate.is_leap (PyDate.year today)); lia. }
  split; [exact H0 |].
  unfold AddressBook.in_window.
  replace (0 <=? PyDate.sub_days bty today) with true
    by (symmetry; apply Z.leb_le; lia).
  reflexivity.
Qed.

Lemma birthday_this_year_not_before_witness :
  0 <= PyDate.sub_days (PyDate.mkdate 2027 2 26) (PyDate.mkdate 2026 11 4)
    <= 366
  /\ AddressBook.in_window (PyDate.mkdate 2026 11 4) 7
       (PyDate.mkdate 2027 2 26)
     = (PyDate.sub_days (PyDate.mkdate 2027 2 26) (PyDate.mkdate 2026 11 4)
        <=? 7).
Proof.
  apply (birthday_this_year_not_before (PyDate.mkdate 2026 11 4)
           (mkBirthday (PyDate.mkdate 1990 2 26))
           (PyDate.mkdate 2027 2 26) 7); reflexivity.
Defined.

(** ** More on reading a birthday *)

Module LenientFacts.
Import PyDate.

Ltac digit_split H :=
  apply ParseFacts.digit_cases in H; cbn in H;
  repeat (destruct H as [<- | H]); try contradiction.

(** What [%d] and [%m] find at one digit before the separator. *)
Lemma directive_d_one a rest :
  Text.isdigit a = true -> a <> "0"%char ->
  directive_d (String a (String "-" rest)) = [(dval a, String "-" rest)].
Proof.
  intros Ha Hz. digit_split Ha; vm_compute; reflexivity.
Qed.

Lemma directive_m_one a rest :
  Text.isdigit a = true -> a <> "0"%char ->
  directive_m (String a (String "-" rest)) = [(dval a, String "-" rest)].
Proof.
  intros Ha Hz. digit_split Ha; vm_compute; reflexivity.
Qed.

(** Two digits that write no day, or no month, are read as one digit at
    most, and the separator is not found after it. *)
Lemma directive_d_bad a b rest :
  Text.isdigit a = true -> Text.isdigit b = true ->
  ~ 1 <= num2 a b <= 31 ->
  directive_d (String a (String b rest))
  = if in_range a 49 57 then [(dval a, String b rest)] else [].
Proof.
  intros Ha Hb Hr. digit_split Ha; digit_split Hb;
    first [ solve [vm_compute; reflexivity]
          | exfalso; apply Hr; vm_compute; split; intro; discriminate ].
Qed.

Lemma directive_m_bad a b rest :
  Text.isdigit a = true -> Text.isdigit b = true ->
  ~ 1 <= num2 a b <= 12 ->
  directive_m (String a (String b rest))
  = if in_range a 49 57 then [(dval a, String b rest)] else [].
Proof.
  intros Ha Hb Hr. digit_split Ha; digit_split Hb;
    first [ solve [vm_compute; reflexivity]
          | exfalso; apply Hr; vm_compute; split; intro; discriminate ].
Qed.

Lemma match_short_text d m y1 y2 y3 y4 :
  Text.isdigit d = true -> d <> "0"%char ->
  Text.isdigit m = true -> m <> "0"%char ->
  forallb Text.isdigit [y1; y2; y3; y4] = true ->
  match_dmY (short_dmY_text d m y1 y2 y3 y4)
  = [((dval d, dval m, num4 y1 y2 y3 y4), EmptyString)].
Proof.
  intros Hd Hd0 Hm Hm0. cbn [forallb]. rewrite !andb_true_iff.
  intros (H1 & H2 & H3 & H4 & _).
  unfold match_dmY, short_dmY_text.
  rewrite (directive_d_one _ _ Hd Hd0).
  unfold pbind at 1. cbn [flat_map]. rewrite app_nil_r.
  cbn [literal]. cbn [Ascii.eqb Bool.eqb]. unfold pbind at 1. cbn [flat_map].
  rewrite app_nil_r.
  rewrite (directive_m_one _ _ Hm Hm0).
  unfold pbind at 1. cbn [flat_map]. rewrite app_nil_r.
  cbn [literal]. cbn [Ascii.eqb Bool.eqb]. unfold pbind at 1. cbn [flat_map].
  rewrite app_nil_r.
  rewrite (ParseFacts.directive_Y_four _ _ _ _ _ H1 H2 H3 H4).
  reflexivity.
Qed.

Lemma match_bad_day d1 d2 m1 m2 y1 y2 y3 y4 :
  Text.isdigit d1 = true -> Text.isdigit d2 = true ->
  ~ 1 <= num2 d1 d2 <= 31 ->
  match_dmY (dmY_text d1 d2 m1 m2 y1 y2 y3 y4) = [].
Proof.
  intros H1 H2 Hr. unfold match_dmY, dmY_text.
  rewrite (directive_d_bad _ _ _ H1 H2 Hr).
  destruct (in_range d1 49 57); [| reflexivity].
  unfold pbind at 1. cbn [flat_map].
  rewrite (ParseFacts.literal_digit _ _ H2). reflexivity.
Qed.

Lemma match_bad_month d1 d2 m1 m2 y1 y2 y3 y4 :
  Text.isdigit d1 = true -> Text.isdigit d2 = true ->
  Text.isdigit m1 = true -> Text.isdigit m2 = true ->
  1 <= num2 d1 d2 <= 31 -> ~ 1 <= num2 m1 m2 <= 12 ->
  match_dmY (dmY_text d1 d2 m1 m2 y1 y2 y3 y4) = [].
Proof.
  intros H1 H2 H3 H4 Hd Hm. unfold match_dmY, dmY_text.
  rewrite (ParseFacts.directive_d_two _ _ _ H1 H2 Hd).
  unfold pbind at 1. cbn [flat_map].
  replace (flat_map _ (if in_range d1 49 57 then _ else _))
    with (@nil (Z * Z * Z * string)).
  2:{ destruct (in_range d1 49 57); [| reflexivity].
      cbn [flat_map]. rewrite (ParseFacts.literal_digit _ _ H2). reflexivity. }
  rewrite app_nil_r.
  cbn [literal]. cbn [Ascii.eqb Bool.eqb]. unfold pbind at 1. cbn [flat_map].
  rewrite app_nil_r.
  rewrite (directive_m_bad _ _ _ H3 H4 Hm).
  destruct (in_range m1 49 57); [| reflexivity].
  unfold pbind at 1. cbn [flat_map].
  rewrite (ParseFacts.literal_digit _ _ H4). reflexivity.
Qed.

End LenientFacts.

(** X21: [Birthday] also accepts a day and a month written with a single
    digit 1..9 (D-M-YYYY, year not 0000) and holds that date.  The date is
    written back with day and month padded to two digits and the year in
    plain decimal; this is the text 0D-0M-YYYY exactly when the year is 1000
    or later, and it always differs from the text given. *)
Theorem new_Birthday_pads (d m y1 y2 y3 y4 : ascii) :
  Text.isdigit d = true -> d <> "0"%char ->
  Text.isdigit m = true -> m <> "0"%char ->
  forallb Text.isdigit [y1; y2; y3; y4] = true ->
  1 <= num4 y1 y2 y3 y4 ->
  exists b,
    new_Birthday (short_dmY_text d m y1 y2 y3 y4) = Ok b
    /\ value b
       = PyDate.mkdate (num4 y1 y2 y3 y4) (PyDate.dval m) (PyDate.dval d)
    /\ to_str b
       = String "0" (String d (String "-" (String "0" (String m (String "-"
           (Text.decimal (num4 y1 y2 y3 y4)))))))
    /\ (to_str b = dmY_text "0" d "0" m y1 y2 y3 y4
        <-> 1000 <= num4 y1 y2 y3 y4)
    /\ to_str b <> short_dmY_text d m y1 y2 y3 y4.
Proof.
  intros Hd Hd0 Hm Hm0 Hy Hy1.
  exists (mkBirthday
            (PyDate.mkdate (num4 y1 y2 y3 y4) (PyDate.dval m) (PyDate.dval d))).
  pose proof (ParseFacts.dval_range d Hd) as Rd.
  pose proof (ParseFacts.dval_range m Hm) as Rm.
  assert (Hd1 : 1 <= PyDate.dval d).
  { pose proof Hd as Hc. apply ParseFacts.digit_cases in Hc. cbn in Hc.
    repeat (destruct Hc as [<- | Hc]); try contradiction; vm_compute;
      discriminate. }
  assert (Hm1 : 1 <= PyDate.dval m).
  { pose proof Hm as Hc. apply ParseFacts.digit_cases in Hc. cbn in Hc.
    repeat (destruct Hc as [<- | Hc]); try contradiction; vm_compute;
      discriminate. }
  pose proof Hy as Hy'. cbn [forallb] in Hy'. rewrite !andb_true_iff in Hy'.
  destruct Hy' as (H1 & H2 & H3 & H4 & _).
  assert (Hy9 : num4 y1 y2 y3 y4 <= 9999).
  { pose proof (ParseFacts.dval_range y1 H1).
    pose proof (ParseFacts.dval_range y2 H2).
    pose proof (ParseFacts.dval_range y3 H3).
    pose proof (ParseFacts.dval_range y4 H4). unfold num4. lia. }
  assert (Hstr : to_str (mkBirthday
                   (PyDate.mkdate (num4 y1 y2 y3 y4)
                      (PyDate.dval m) (PyDate.dval d)))
                 = String "0" (String d (String "-" (String "0" (String m
                     (String "-" (Text.decimal (num4 y1 y2 y3 y4)))))))).
  { unfold to_str, Birthday_Field, PyDate.strftime_dmY.
    cbn [birthday_value PyDate.day PyDate.month PyDate.year].
    replace (PyDate.dval d) with (num2 "0" d) by reflexivity.
    replace (PyDate.dval m) with (num2 "0" m) by reflexivity.
    rewrite !ParseFacts.pad2_num2 by (assumption || reflexivity).
    reflexivity. }
  split; [| split; [reflexivity | split; [exact Hstr | split]]].
  - unfold new_Birthday, PyDate.strptime_dmY.
    rewrite (LenientFacts.match_short_text _ _ _ _ _ _ Hd Hd0 Hm Hm0 Hy).
    unfold PyDate.new.
    replace (PyDate.check_date_fields _ _ _) with true; [reflexivity |].
    symmetry. apply DateFacts.check_date_fields_spec.
    split; [lia |]. split; [lia |]. split; [lia |].
    unfold PyDate.days_in_month.
    assert (Hc : PyDate.dval m = 1 \/ PyDate.dval m = 2 \/ PyDate.dval m = 3
                 \/ PyDate.dval m = 4 \/ PyDate.dval m = 5
                 \/ PyDate.dval m = 6 \/ PyDate.dval m = 7
                 \/ PyDate.dval m = 8 \/ PyDate.dval m = 9) by lia.
    destruct (PyDate.is_leap _);
      repeat (destruct Hc as [-> | Hc]; [cbn; lia |]); rewrite Hc; cbn; lia.
  - rewrite Hstr, <- (ParseFacts.decimal_num4 y1 y2 y3 y4 H1 H2 H3 H4).
    unfold dmY_text. split.
    + intros Heq. injection Heq as Heq. exact Heq.
    + intros Heq. rewrite Heq. reflexivity.
  - rewrite Hstr. unfold short_dmY_text. intros Heq.
    injection Heq as Heq _. apply Hd0. symmetry. exact Heq.
Qed.

Lemma new_Birthday_pads_witness :
  exists b,
    new_Birthday "1-2-2001" = Ok b
    /\ value b = PyDate.mkdate 2001 2 1
    /\ to_str b = "01-02-2001"
    /\ to_str b <> "1-2-2001".
Proof.
  destruct (new_Birthday_pads "1" "2" "2" "0" "0" "1")
    as (b & Hb & Hval & _ & Hstr & Hne);
    try reflexivity; try discriminate.
  exists b. split; [exact Hb |]. split; [exact Hval |].
  split; [apply Hstr; vm_compute; discriminate | exact Hne].
Defined.

(** X22: [Birthday] refuses, with [ValueError], every text of the form
    DD-MM-YYYY in digits that writes no date of the calendar: a day the
    month does not have, a month above 12, a day, month or year 0. *)
Theorem new_Birthday_refuses_non_date (text : string) (t : PyDate.date) :
  denotes text t -> ~ PyDate.valid t ->
  new_Birthday text = Err ValueError.
Proof.
  intros (d1 & d2 & m1 & m2 & y1 & y2 & y3 & y4 & -> & Hdig & ->) Hnv.
  pose proof Hdig as Hdig'. cbn [forallb] in Hdig'.
  rewrite !andb_true_iff in Hdig'.
  destruct Hdig' as (H1 & H2 & H3 & H4 & H5 & H6 & H7 & H8 & _).
  unfold new_Birthday, PyDate.strptime_dmY.
  destruct (Z_le_dec 1 (num2 d1 d2)) as [Hd0 |Hd0];
    [destruct (Z_le_dec (num2 d1 d2) 31) as [Hd1 | Hd1] |].
  - destruct (Z_le_dec 1 (num2 m1 m2)) as [Hm0 |Hm0];
      [destruct (Z_le_dec (num2 m1 m2) 12) as [Hm1 | Hm1] |].
    + rewrite (ParseFacts.match_dmY_text _ _ _ _ _ _ _ _ Hdig
                 (conj Hd0 Hd1) (conj Hm0 Hm1)).
      unfold PyDate.new.
      destruct (PyDate.check_date_fields _ _ _) eqn:E; [| reflexivity].
      contradiction.
    + rewrite LenientFacts.match_bad_month; try assumption;
        [reflexivity | lia | lia].
    + rewrite LenientFacts.match_bad_month; try assumption;
        [reflexivity | lia | lia].
  - rewrite LenientFacts.match_bad_day; try assumption; [reflexivity | lia].
  - rewrite LenientFacts.match_bad_day; try assumption; [reflexivity | lia].
Qed.

Lemma new_Birthday_refuses_non_date_witness :
  new_Birthday "29-02-2023" = Err ValueError.
Proof.
  apply (new_Birthday_refuses_non_date "29-02-2023" (PyDate.mkdate 2023 2 29)).
  - exists "2"%char, "9"%char, "0"%char, "2"%char,
      "2"%char, "0"%char, "2"%char, "3"%char.
    repeat split; reflexivity.
  - discriminate.
Defined.

(** ** Edges of the lookups, of [edit_phone] and of the listing *)

(** X23: [phone] and [show-birthday] look up the arguments glued into one
    name.  For a name the book does not have both answer "Name not
    found."; for a record without phones [phone] answers "No phones", and
    for a record without birthday [show-birthday] answers "No birthday for
    this contact.".  Nothing changes. *)
Theorem lookup_commands_edge (s : Store) (args : list string) :
  (absent (Text.join "" args) s ->
   show_phone args s = (Return (VStr "Name not found."), s)
   /\ show_birthday args s = (Return (VStr "Name not found."), s))
  /\ (forall l r,
        Dict.get (Text.join "" args) (data s) = Some l ->
        heap s !! l = Some r ->
        (phones r = [] ->
         show_phone args s = (Return (VStr "No phones"), s))
        /\ (birthday r = None ->
            show_birthday args s
            = (Return (VStr "No birthday for this contact."), s))).
Proof.
  split.
  - intros Ha. apply get_absent in Ha.
    unfold show_phone, show_birthday. mrun. rewrite Ha. split; reflexivity.
  - intros l r Hl Hr. split; intros H.
    + unfold show_phone. mrun. rewrite Hl. mrun. rewrite Hr, H. reflexivity.
    + unfold show_birthday. mrun. rewrite Hl. mrun. rewrite Hr, H.
      reflexivity.
Qed.

Lemma lookup_commands_edge_witness :
  (show_phone ["da"; "ve"] carol_book
   = (Return (VStr "Name not found."), carol_book)
   /\ show_birthday ["da"; "ve"] carol_book
      = (Return (VStr "Name not found."), carol_book))
  /\ show_birthday ["ann"] (mkStore [Rec.new "ann"] [("ann", 0%nat)])
     = (Return (VStr "No birthday for this contact."),
        mkStore [Rec.new "ann"] [("ann", 0%nat)])
  /\ show_phone ["ann"] (mkStore [Rec.new "ann"] [("ann", 0%nat)])
     = (Return (VStr "No phones"), mkStore [Rec.new "ann"] [("ann", 0%nat)]).
Proof.
  split; [| split].
  - apply (proj1 (lookup_commands_edge carol_book ["da"; "ve"])).
    intros [H | []]. discriminate H.
  - apply (proj2 (lookup_commands_edge
                    (mkStore [Rec.new "ann"] [("ann", 0%nat)]) ["ann"])
             0%nat (Rec.new "ann") eq_refl eq_refl).
    reflexivity.
  - apply (proj2 (lookup_commands_edge
                    (mkStore [Rec.new "ann"] [("ann", 0%nat)]) ["ann"])
             0%nat (Rec.new "ann") eq_refl eq_refl).
    reflexivity.
Defined.

(** X24: [edit_phone] from an old to a new value and back gives the
    record as it was, provided the record had no phone of the new value;
    this holds whether or not it had one of the old value. *)
Theorem edit_phone_back (old_v new_v : string) (r : RecordObj) :
  no_phone new_v (phones r) ->
  Rec.edit_phone new_v old_v (Rec.edit_phone old_v new_v r) = r.
Proof.
  intros H.
  assert (Hback : Rec.edit_first new_v old_v
                    (Rec.edit_first old_v new_v (phones r)) = phones r).
  { revert H. unfold no_phone. generalize (phones r).
    induction l as [|p ps IH]; cbn; intros H; [reflexivity |].
    destruct (String.eqb_spec (phone_value p) old_v) as [E|E]; cbn.
    - rewrite String.eqb_refl. destruct p. cbn in E. subst. reflexivity.
    - destruct (String.eqb_spec (phone_value p) new_v) as [E'|E'].
      + destruct (H p); auto.
      + f_equal. apply IH. intros q Hq. apply H. auto. }
  unfold Rec.edit_phone, Rec.set_phones. cbn.
  rewrite Hback. destruct r. reflexivity.
Qed.

Lemma edit_phone_back_witness :
  Rec.edit_phone "5550003333" "5550001111"
    (Rec.edit_phone "5550001111" "5550003333" carol)
  = carol.
Proof.
  apply (edit_phone_back "5550001111" "5550003333" carol).
  intros p [<- | [<- | []]]; cbn; discriminate.
Defined.

Lemma birthday_this_year_Ok_occurs today b bty :
  AddressBook.birthday_this_year today b = Ok bty ->
  occurs today (birthday_value b).
Proof.
  unfold AddressBook.birthday_this_year, PyDate.replace_year, rbind, occurs,
    next_occurrence.
  destruct (PyDate.new (PyDate.year today) _ _) as [t1|] eqn:E1;
    [| discriminate].
  apply DateFacts.new_valid in E1 as [Hv1 ->].
  fold (in_year (birthday_value b) (PyDate.year today)) in *.
  destruct (PyDate.lt _ today).
  - cbn [PyDate.month PyDate.day in_year]. intros E2.
    apply DateFacts.new_valid in E2 as [Hv2 ->]. split; assumption.
  - intros _. split; assumption.
Qed.

Lemma upcoming_loop_fails today days rs : forall acc,
  (exists r b, In r rs /\ birthday r = Some b
               /\ ~ occurs today (birthday_value b)) ->
  AddressBook.upcoming_loop today days rs acc = Err ValueError.
Proof.
  induction rs as [|r rest IH]; intros acc (r0 & b0 & Hin & Hb0 & Hno);
    [destruct Hin |].
  destruct (AddressBook.upcoming_loop today days (r :: rest) acc)
    as [out|e] eqn:E; [| rewrite (upcoming_loop_raises _ _ _ _ _ E); auto].
  exfalso. cbn in E.
  destruct Hin as [<- | Hin].
  - rewrite Hb0 in E.
    destruct (AddressBook.birthday_this_year today b0) as [bty|] eqn:Eb;
      [| discriminate].
    apply Hno. eapply birthday_this_year_Ok_occurs, Eb.
  - assert (Hrest : forall acc', AddressBook.upcoming_loop today days rest acc'
                                 = Err ValueError)
      by (intros; apply IH; eauto).
    destruct (birthday r) as [b|]; [| rewrite Hrest in E; discriminate].
    destruct (AddressBook.birthday_this_year today b) as [bty|];
      [| discriminate].
    destruct (AddressBook.in_window today days bty);
      [| rewrite Hrest in E; discriminate].
    destruct (AddressBook.adjust_for_weekend bty); [| discriminate].
    rewrite Hrest in E. discriminate.
Qed.

(** X25: [get_upcoming_birthdays] raises [ValueError], and returns no
    list, as soon as the book holds one record whose birthday does not
    exist in the year it is moved to (a 29th of February and a common
    year; the year after 9999), whatever the other records are. *)
Theorem upcoming_fails_on_missing_day today days s rs :
  AddressBook.records s = (Return rs, s) ->
  (exists r b, In r rs /\ birthday r = Some b
               /\ ~ occurs today (birthday_value b)) ->
  AddressBook.get_upcoming_birthdays today days s = (Raise ValueError, s).
Proof.
  intros Hrs Hex. unfold AddressBook.get_upcoming_birthdays, bind.
  rewrite Hrs, (upcoming_loop_fails _ _ _ _ Hex). reflexivity.
Qed.

Lemma upcoming_fails_on_missing_day_witness :
  AddressBook.get_upcoming_birthdays (PyDate.mkdate 2026 11 4) 7 leap_book
  = (Raise ValueError, leap_book).
Proof.
  apply (upcoming_fails_on_missing_day (PyDate.mkdate 2026 11 4) 7 leap_book
           [alice; bob]).
  - reflexivity.
  - exists bob, (mkBirthday (PyDate.mkdate 2024 2 29)).
    split; [right; left; reflexivity |]. split; [reflexivity |].
    intros [H _]. discriminate H.
Defined.

Lemma upcoming_loop_nothing today days rs :
  PyDate.valid today -> days < 0 -> forall out,
  AddressBook.upcoming_loop today days rs [] = Ok out -> out = [].
Proof.
  intros Ht Hdays. induction rs as [|r rest IH]; intros out H; cbn in H.
  - injection H as <-. reflexivity.
  - destruct (birthday r) as [b|]; [| exact (IH _ H)].
    destruct (AddressBook.birthday_this_year today b) as [bty|] eqn:Eb;
      [| discriminate].
    replace (AddressBook.in_window today days bty) with false in H;
      [exact (IH _ H) |].
    symmetry. unfold AddressBook.in_window. apply andb_false_iff. right.
    apply Z.leb_gt.
    enough (0 <= PyDate.sub_days bty today) by lia.
    revert Eb.
    unfold AddressBook.birthday_this_year, PyDate.replace_year, rbind.
    destruct (PyDate.new (PyDate.year today) _ _) as [t1|] eqn:E1;
      [| discriminate].
    apply DateFacts.new_valid in E1 as [Hv1 ->].
    destruct (PyDate.lt _ today) eqn:Hlt.
    + cbn [PyDate.month PyDate.day]. intros E2.
      apply DateFacts.new_valid in E2 as [Hv2 ->].
      assert (Hafter : PyDate.toordinal today
                       < PyDate.toordinal
                           (PyDate.mkdate (PyDate.year today + 1)
                              (PyDate.month (birthday_value b))
                              (PyDate.day (birthday_value b)))).
      { apply OrderFacts.lt_toordinal; [exact Ht | exact Hv2 |].
        unfold PyDate.lt. cbn.
        replace (PyDate.year today <? PyDate.year today + 1) with true
          by (symmetry; apply Z.ltb_lt; lia).
        reflexivity. }
      unfold PyDate.sub_days. lia.
    + intros [= <-].
      pose proof (OrderFacts.not_lt_toordinal _ _ Hv1 Ht Hlt).
      unfold PyDate.sub_days. lia.
Qed.

(** X26: with a negative number of days [get_upcoming_birthdays] lists
    nobody. *)
Theorem upcoming_negative_window today days s out s' :
  PyDate.valid today -> days < 0 ->
  AddressBook.get_upcoming_birthdays today days s = (Return out, s') ->
  out = [].
Proof.
  intros Ht Hdays. unfold AddressBook.get_upcoming_birthdays. intros H.
  apply bind_Return in H as (rs & s1 & H1 & H).
  destruct (AddressBook.upcoming_loop today days rs []) as [l|e] eqn:E;
    cbn in H; [| discriminate].
  injection H as <- _. eapply upcoming_loop_nothing; eauto.
Qed.

Lemma upcoming_negative_window_witness : @nil Entry = [].
Proof.
  apply (upcoming_negative_window (PyDate.mkdate 2026 11 7) (-1) carol_book
           [] carol_book).
  - reflexivity.
  - lia.
  - vm_compute. reflexivity.
Defined.
